(** * GlueBot: the reply-resolution pipeline of [main.py]

    A shallow embedding of the chat pipeline (smalltalk, knowledge lookup,
    script template, incident tracker, LLM delegate, fallback) and of the
    knowledge store it reads and writes, followed by the properties that
    the specification states about them.

    Conventions of the embedding.
    - A Python [str] is a [string]; a character is a code point in
      U+0000..U+00FF, held in an [ascii].  [str.lower], [str.strip] and
      the regular expression [[a-z0-9]+] are written out for that range.
    - A Python [dict] with string keys is a [gmap string _], a [set] of
      strings a [gset string], a [list] a [list].
    - [None] is [None]; a function of type [str | None] returns
      [option string]; truthiness tests are written out ([nonempty],
      [if_truthy]).
    - An exception that escapes a function is a [Raise] in its [result].
    - A float that is a quotient of two token counts is the exact
      rational [n # d]: for counts below 2^26 the correctly rounded
      double quotients are ordered, and compare with the literal 0.6,
      exactly as the rationals do. *)

From Stdlib Require Import QArith Ascii String.
From stdpp Require Import gmap strings list fin_maps sorting.

Local Close Scope Q_scope.
Local Open Scope string_scope.
Local Open Scope list_scope.

(** ** Text primitives *)

Module Text.

(** The line feed and the double quote of the Python literals. *)
Definition nl : string := String "010"%char "".
Definition dq : string := String "034"%char "".

(** [str.isspace] on one character (U+0009..U+000D, U+001C..U+0020,
    U+0085, U+00A0). *)
Definition is_space (c : ascii) : bool :=
  let n := N_of_ascii c in
  ((9 <=? n) && (n <=? 13) || (28 <=? n) && (n <=? 32)
   || (n =? 133) || (n =? 160))%N.

(** [str.lower] on one character: A..Z and the Latin-1 capitals
    U+00C0..U+00DE (U+00D7, the multiplication sign, excepted) move up
    by 32. *)
Definition lower_char (c : ascii) : ascii :=
  let n := N_of_ascii c in
  if ((65 <=? n) && (n <=? 90)
      || (192 <=? n) && (n <=? 222) && negb (n =? 215))%N
  then ascii_of_N (n + 32) else c.

(** [s.lower()] *)
Fixpoint lower (s : string) : string :=
  match s with
  | EmptyString => EmptyString
  | String c s' => String (lower_char c) (lower s')
  end.

(** [s.lstrip()], [s.rstrip()], [s.strip()] *)
Fixpoint lstrip (s : string) : string :=
  match s with
  | EmptyString => EmptyString
  | String c s' => if is_space c then lstrip s' else s
  end.

Fixpoint rstrip (s : string) : string :=
  match s with
  | EmptyString => EmptyString
  | String c s' =>
      match rstrip s' with
      | EmptyString => if is_space c then EmptyString else String c EmptyString
      | r => String c r
      end
  end.

Definition strip (s : string) : string := lstrip (rstrip s).

(** [sub in s] for two strings *)
Fixpoint contains (sub s : string) : bool :=
  String.prefix sub s ||
  match s with
  | EmptyString => false
  | String _ s' => contains sub s'
  end.

(** [c in s] for a single character [c]. *)
Fixpoint mem_char (c : ascii) (s : string) : bool :=
  match s with
  | EmptyString => false
  | String a s' => Ascii.eqb c a || mem_char c s'
  end.

(** Every character of [sub] occurs in [s]. *)
Definition covers (sub s : string) : bool :=
  forallb (λ c, mem_char c s) (list_ascii_of_string sub).

(** A character of the class [[a-z0-9]]. *)
Definition is_alnum (c : ascii) : bool :=
  let n := N_of_ascii c in
  ((97 <=? n) && (n <=? 122) || (48 <=? n) && (n <=? 57))%N.

(** [re.findall(r"[a-z0-9]+", s)]: the maximal runs of class characters,
    left to right.  [cur] is the run being read. *)
Fixpoint findall_from (cur s : string) : list string :=
  match s with
  | EmptyString => if decide (cur = "") then [] else [cur]
  | String c s' =>
      if is_alnum c then findall_from (cur +:+ String c "") s'
      else if decide (cur = "") then findall_from "" s'
           else cur :: findall_from "" s'
  end.

Definition findall (s : string) : list string := findall_from "" s.

(** [set(re.findall(r"[a-z0-9]+", s))] *)
Definition tokens (s : string) : gset string := list_to_set (findall s).

(** [sep.join(parts)] *)
Fixpoint join (sep : string) (parts : list string) : string :=
  match parts with
  | [] => ""
  | [p] => p
  | p :: rest => p +:+ sep +:+ join sep rest
  end.

(** Truthiness of a [str]: non-empty. *)
Definition nonempty (s : string) : bool :=
  match s with EmptyString => false | _ => true end.

(** [a or b] on two strings. *)
Definition str_or (a b : string) : string := if nonempty a then a else b.

End Text.

Export Text.

(** ** Data model *)

(** The value of a field of a knowledge record, as [json.loads] returns
    it.  The program looks at a field value through [str(_)] only, so a
    number, an array or a nested object is carried as the text that
    [str] gives for it. *)
Inductive pyval :=
| PStr (s : string)
| PNone
| PBool (b : bool)
| POther (shown : string).

(** [str(v)] *)
Definition py_str (v : pyval) : string :=
  match v with
  | PStr s => s
  | PNone => "None"
  | PBool true => "True"
  | PBool false => "False"
  | POther shown => shown
  end.

(** A knowledge record: a [dict] from field names to values. *)
Abbreviation dict := (gmap string pyval).

#[local] Set Warnings "-register-all".

(** What [json.loads] returns for the text of the knowledge file. *)
Inductive json :=
| JObject (d : dict)
| JArray (items : list json)
| JString (s : string)
| JNumber (shown : string)
| JBool (b : bool)
| JNull.

(** The knowledge file as [_load_knowledge] meets it:
    - [NoFile]: the path does not exist;
    - [ZeroBytes]: a file of size zero;
    - [Unreadable]: a directory, or a file that the process may not
      read: [read_text] raises [OSError];
    - [NotUtf8]: bytes that [read_text(encoding="utf-8")] cannot decode:
      it raises [UnicodeDecodeError];
    - [NotJson]: text that is not JSON: [json.loads] raises
      [json.JSONDecodeError];
    - [IntegerTooLong]: well-formed JSON that holds an integer literal of
      more than 4300 digits: [json.loads] raises [ValueError];
    - [NestingTooDeep]: well-formed JSON nested deeper than the
      interpreter's recursion limit: [json.loads] raises
      [RecursionError];
    - [Json data]: text that [json.loads] decodes to [data]. *)
Inductive knowledge_file :=
| NoFile
| ZeroBytes
| Unreadable
| NotUtf8
| NotJson
| IntegerTooLong
| NestingTooDeep
| Json (data : json).

(** The exceptions that escape a function of the repository. *)
Inductive exn :=
| OSError
| UnicodeDecodeError
| ValueError
| RecursionError
| AttributeError
| IndexError
| KeyError
| TypeError.

Inductive result (A : Type) :=
| Ok (a : A)
| Raise (e : exn).

Arguments Ok {A} a.
Arguments Raise {A} e.

Record ChatResponse := { reply : string; source : string }.

(** [os.environ] once [load_dotenv] has run, and [os.getenv]. *)
Abbreviation environ := (gmap string string).

Definition getenv (env : environ) (name dflt : string) : string :=
  default dflt (env !! name).

(** The outbound completion request and what comes back.
    [RequestException] stands for every failure that [requests]
    reports (transport, status, a body that is not JSON).  For a
    success response, [Completion] carries the text found at
    [choices[0].message.content], or at [output_text] for the other
    wire shape (the empty string when the key is absent or, for
    [output_text], falsy); [BadShape] is a body on which that
    extraction raises, with the exception: [IndexError] for an empty
    [choices], [AttributeError] for a body that is no object or a
    [content] that is no string, [TypeError] or [KeyError] for a
    [choices] that is no list. *)
Inductive llm_body :=
| ChatCompletions (model system user : string)
| Responses (model input : string).

Record http_request := {
  req_url : string;
  req_headers : gmap string string;
  req_json : llm_body;
  req_timeout : nat
}.

Inductive http_outcome :=
| RequestException
| Completion (text : string)
| BadShape (e : exn).

(** ** The pipeline stages of [main.py] *)

(** [item.get("question", item.get("q", ""))] and the same for the
    answer, under [str]. *)
Definition question_of (item : dict) : string :=
  py_str (default (default (PStr "") (item !! "q")) (item !! "question")).

Definition answer_of (item : dict) : string :=
  py_str (default (default (PStr "") (item !! "a")) (item !! "answer")).

Definition greetings : gset string :=
  {[ "hi"; "hello"; "hey"; "yo"; "good morning"; "good afternoon"; "good evening" ]}.

Definition thanks : gset string := {[ "thanks"; "thank you"; "thx" ]}.

Definition help_phrases : gset string :=
  {[ "help"; "what can you do"; "what can you help with" ]}.

Definition PROMPT_FOR_INPUT : string := "Please type a message so I can help.".

Definition GREETING_REPLY : string :=
  "Hi, I can help with Kubernetes and OpenStack operations. "
  +:+ "Try: `pod stuck in termination`, `CrashLoopBackOff`, or "
  +:+ "`delete all available openstack volumes`.".

Definition THANKS_REPLY : string := "You are welcome. Share the next issue when ready.".

Definition HELP_REPLY : string :=
  "I can troubleshoot Kubernetes and OpenStack issues, and generate safe scripts. "
  +:+ "Include exact errors and I will provide step-by-step commands.".

Definition _smalltalk_reply (message : string) : option string :=
  let text := lower (strip message) in
  if negb (nonempty text) then Some PROMPT_FOR_INPUT
  else if bool_decide (text ∈ greetings) then Some GREETING_REPLY
  else if bool_decide (text ∈ thanks) then Some THANKS_REPLY
  else if bool_decide (text ∈ help_phrases) then Some HELP_REPLY
  else None.

Definition incident_keywords : gset string :=
  {[ "pod"; "kubernetes"; "k8s"; "probe"; "liveness"; "readiness";
     "crashloopbackoff"; "imagepullbackoff"; "error"; "failed"; "timeout";
     "terminating"; "restart"; "openstack"; "nova"; "neutron"; "cinder";
     "glance"; "keystone"; "volume"; "instance"; "server" ]}.

Definition _is_incident_like (message : string) : bool :=
  let tokens := tokens (lower message) in
  bool_decide (tokens ∩ incident_keywords ≠ ∅).

Definition OPENSTACK_SCRIPT : string :=
  "Use this safe script (dry-run by default) to delete all OpenStack volumes in `available` state:" +:+ nl +:+ nl
  +:+ "```bash" +:+ nl
  +:+ "#!/usr/bin/env bash" +:+ nl
  +:+ "set -euo pipefail" +:+ nl +:+ nl
  +:+ "# Usage:" +:+ nl
  +:+ "#   ./delete_available_volumes.sh            # dry-run" +:+ nl
  +:+ "#   DRY_RUN=false ./delete_available_volumes.sh" +:+ nl +:+ nl
  +:+ "DRY_RUN=${DRY_RUN:-true}" +:+ nl +:+ nl
  +:+ "mapfile -t volumes < <(openstack volume list -f value -c ID -c Status | awk '$2==" +:+ dq +:+ "available" +:+ dq +:+ " {print $1}')" +:+ nl +:+ nl
  +:+ "if [ ${#volumes[@]} -eq 0 ]; then" +:+ nl
  +:+ "  echo " +:+ dq +:+ "No available volumes found." +:+ dq +:+ nl
  +:+ "  exit 0" +:+ nl
  +:+ "fi" +:+ nl +:+ nl
  +:+ "echo " +:+ dq +:+ "Found ${#volumes[@]} available volumes" +:+ dq +:+ nl
  +:+ "for vol in " +:+ dq +:+ "${volumes[@]}" +:+ dq +:+ "; do" +:+ nl
  +:+ "  if [ " +:+ dq +:+ "$DRY_RUN" +:+ dq +:+ " = " +:+ dq +:+ "true" +:+ dq +:+ " ]; then" +:+ nl
  +:+ "    echo " +:+ dq +:+ "[DRY-RUN] openstack volume delete $vol" +:+ dq +:+ nl
  +:+ "  else" +:+ nl
  +:+ "    echo " +:+ dq +:+ "Deleting volume: $vol" +:+ dq +:+ nl
  +:+ "    openstack volume delete " +:+ dq +:+ "$vol" +:+ dq +:+ nl
  +:+ "  fi" +:+ nl
  +:+ "done" +:+ nl
  +:+ "```" +:+ nl +:+ nl
  +:+ "Before deleting, confirm tenant/project scope and snapshots/backups.".

Definition _openstack_script_reply (message : string) : option string :=
  let text := lower message in
  if contains "openstack" text
     && contains "volume" text
     && (contains "delete" text || contains "remove" text)
     && contains "available" text
  then Some OPENSTACK_SCRIPT
  else None.

(** [isinstance(item, dict)] on an element of the decoded array. *)
Definition as_dict (item : json) : option dict :=
  match item with JObject d => Some d | _ => None end.

Definition _load_knowledge (file : knowledge_file) : result (list dict) :=
  match file with
  | NoFile | ZeroBytes => Ok []
  | Unreadable => Raise OSError
  | NotUtf8 => Raise UnicodeDecodeError
  | NotJson => Ok []
  | IntegerTooLong => Raise ValueError
  | NestingTooDeep => Raise RecursionError
  | Json data =>
      match data with
      | JArray items => Ok (omap as_dict items)
      | JObject d => Ok [d]
      | _ => Ok []
      end
  end.

(** [len(a & b) / len(b)] *)
Definition overlap_ratio (msg_tokens q_tokens : gset string) : Q :=
  (Z.of_nat (size (msg_tokens ∩ q_tokens)) # Pos.of_nat (size q_tokens))%Q.

Fixpoint find_reply_loop (text : string) (msg_tokens : gset string)
    (knowledge : list dict) : option string :=
  match knowledge with
  | [] => None
  | item :: rest =>
      let question := lower (strip (question_of item)) in
      let answer := strip (answer_of item) in
      if negb (nonempty question && nonempty answer)
      then find_reply_loop text msg_tokens rest
      else if contains question text || contains text question
      then Some answer
      else
        let q_tokens := tokens question in
        if bool_decide (q_tokens = ∅)
        then find_reply_loop text msg_tokens rest
        else if Qle_bool (6 # 10) (overlap_ratio msg_tokens q_tokens)
        then Some answer
        else find_reply_loop text msg_tokens rest
  end.

Definition _find_reply (message : string) (knowledge : list dict) : option string :=
  let text := lower (strip message) in
  if negb (nonempty text) then Some PROMPT_FOR_INPUT
  else find_reply_loop text (tokens text) knowledge.

(** [write_text(json.dumps(knowledge, indent=2))]: the file then holds
    text that [json.loads] decodes to the array of these records. *)
Definition _save_knowledge (knowledge : list dict) : knowledge_file :=
  Json (JArray (JObject <$> knowledge)).

Definition TRACK_NOTE : string := "Captured from unknown user issue. Fill answer later.".

Definition unresolved_record (question : string) : dict :=
  {[ "question" := PStr question;
     "answer" := PStr "";
     "status" := PStr "unresolved";
     "note" := PStr TRACK_NOTE ]}.

(** The list is mutated in place and the caller keeps using it: the
    function returns the list as it is afterwards, with the file. *)
Definition _track_unknown_issue (message : string) (knowledge : list dict)
    (file : knowledge_file) : list dict * knowledge_file :=
  let question := strip message in
  if negb (nonempty question) then (knowledge, file)
  else
    let existing_questions : gset string :=
      list_to_set ((λ item : dict, lower (strip (question_of item))) <$> knowledge) in
    if bool_decide (lower question ∈ existing_questions) then (knowledge, file)
    else
      let knowledge' := (knowledge ++ [unresolved_record question])%list in
      (knowledge', _save_knowledge knowledge').

Definition LLM_PROMPT_HEAD : string :=
  "You are GlueBot, a Kubernetes + OpenStack SRE assistant. "
  +:+ "Provide concise, actionable troubleshooting steps. "
  +:+ "For Kubernetes, include kubectl commands. For OpenStack, include openstack CLI commands. "
  +:+ "If user asks for scripts/automation, return a safe script with dry-run default and a short warning." +:+ nl +:+ nl.

Definition LLM_SYSTEM : string :=
  "You are GlueBot, a Kubernetes + OpenStack SRE assistant. "
  +:+ "Give concise troubleshooting steps and safe automation scripts.".

Fixpoint topic_list (knowledge : list dict) : list string :=
  match knowledge with
  | [] => []
  | item :: rest =>
      let question := strip (question_of item) in
      let answer := strip (answer_of item) in
      if nonempty question && nonempty answer
      then ("- " +:+ question +:+ ": " +:+ answer) :: topic_list rest
      else topic_list rest
  end.

Definition kb_context (knowledge : list dict) : string :=
  let topics := topic_list (take 30 knowledge) in
  match topics with
  | [] => "- No curated KB answers yet."
  | _ => join nl topics
  end.

Definition llm_prompt (message : string) (knowledge : list dict) : string :=
  LLM_PROMPT_HEAD
  +:+ "Known KB:" +:+ nl +:+ kb_context knowledge +:+ nl +:+ nl
  +:+ "User issue: " +:+ message.

Definition _llm_reply (env : environ) (post : http_request → http_outcome)
    (message : string) (knowledge : list dict) : result (option string) :=
  let openai_api_key := strip (getenv env "OPENAI_API_KEY" "") in
  let openrouter_api_key := strip (getenv env "OPENROUTER_API_KEY" "") in
  let llm_api_key := str_or openai_api_key openrouter_api_key in
  let llm_model := strip (getenv env "OPENAI_MODEL" "gpt-4.1-mini") in
  let llm_api_base := strip (getenv env "LLM_API_BASE" "") in
  let openrouter_site_url := strip (getenv env "OPENROUTER_SITE_URL" "") in
  let openrouter_app_name := strip (getenv env "OPENROUTER_APP_NAME" "GlueBot") in
  if negb (nonempty llm_api_key) then Ok None
  else
    let prompt := llm_prompt message knowledge in
    let base := lower llm_api_base in
    let is_openrouter := contains "openrouter" base || nonempty openrouter_api_key in
    let headers : gmap string string :=
      {[ "Authorization" := "Bearer " +:+ llm_api_key;
         "Content-Type" := "application/json" ]} in
    let headers :=
      if is_openrouter && nonempty openrouter_site_url
      then <["HTTP-Referer" := openrouter_site_url]> headers else headers in
    let headers :=
      if is_openrouter && nonempty openrouter_app_name
      then <["X-Title" := openrouter_app_name]> headers else headers in
    let request :=
      if is_openrouter
      then {| req_url := str_or llm_api_base "https://openrouter.ai/api/v1/chat/completions";
              req_headers := headers;
              req_json := ChatCompletions llm_model LLM_SYSTEM prompt;
              req_timeout := 20 |}
      else {| req_url := str_or llm_api_base "https://api.openai.com/v1/responses";
              req_headers := headers;
              req_json := Responses llm_model prompt;
              req_timeout := 20 |} in
    match post request with
    | RequestException => Ok None
    | Completion text =>
        let text := strip text in
        if nonempty text then Ok (Some text) else Ok None
    | BadShape e => Raise e
    end.

(** [scored.sort(key=lambda x: x[0], reverse=True)]: a stable sort,
    larger scores first, equal scores in their original order.  The
    element being inserted stood before every element of [l]. *)
Fixpoint insert_desc (x : Q * string) (l : list (Q * string)) : list (Q * string) :=
  match l with
  | [] => [x]
  | y :: l' =>
      if Qle_bool (fst y) (fst x) then x :: l
      else y :: insert_desc x l'
  end.

Definition sort_desc (l : list (Q * string)) : list (Q * string) :=
  foldr insert_desc [] l.

Fixpoint scored_topics (msg_tokens : gset string) (knowledge : list dict)
    : list (Q * string) :=
  match knowledge with
  | [] => []
  | item :: rest =>
      let question := strip (question_of item) in
      let answer := strip (answer_of item) in
      if negb (nonempty question) then scored_topics msg_tokens rest
      else if negb (nonempty answer) then scored_topics msg_tokens rest
      else
        let q_tokens := tokens (lower question) in
        if bool_decide (q_tokens = ∅) then scored_topics msg_tokens rest
        else
          let score := overlap_ratio msg_tokens q_tokens in
          if negb (Qle_bool score 0)
          then (score, question) :: scored_topics msg_tokens rest
          else scored_topics msg_tokens rest
  end.

Definition _related_topics (message : string) (knowledge : list dict)
    (limit : nat) : list string :=
  let msg_tokens := tokens (lower message) in
  let scored := sort_desc (scored_topics msg_tokens knowledge) in
  snd <$> take limit scored.

Definition LIVENESS_500_REPLY : string :=
  "Try this checklist for liveness probe 500 errors:" +:+ nl
  +:+ "1) Confirm the probe path/port matches your app endpoint." +:+ nl
  +:+ "2) Check app logs around probe failures (`kubectl logs <pod> -c <container>`)." +:+ nl
  +:+ "3) Increase `initialDelaySeconds` and `timeoutSeconds` if startup is slow." +:+ nl
  +:+ "4) Verify dependencies (DB/cache/API) required by the health endpoint." +:+ nl
  +:+ "5) Use `kubectl describe pod <pod>` to confirm probe failure events.".

Definition PROBE_REPLY : string :=
  "Probe issue detected. Verify probe path, port, and timing fields "
  +:+ "(`initialDelaySeconds`, `timeoutSeconds`, `periodSeconds`, `failureThreshold`), "
  +:+ "then inspect events with `kubectl describe pod <pod>` and container logs.".

Definition OPENSTACK_REPLY : string :=
  "OpenStack issue detected. Start with: "
  +:+ "`openstack token issue`, `openstack server list`, `openstack volume list`, "
  +:+ "`openstack network agent list`, then check service logs and project quotas.".

Definition GENERIC_REPLY : string :=
  "I do not have an exact match yet, but start with: "
  +:+ "`kubectl describe pod <pod>`, `kubectl logs <pod> -c <container> --previous`, "
  +:+ "and check recent events in the namespace.".

Definition related_text (message : string) (knowledge : list dict) : string :=
  let related := _related_topics message knowledge 3 in
  match related with
  | [] => ""
  | _ => nl +:+ "Related topics you can ask: " +:+ join ", " related
  end.

Definition _fallback_reply (message : string) (knowledge : list dict) : string :=
  let text := lower message in
  let related_text := related_text message knowledge in
  if contains "liveness" text && contains "500" text
  then LIVENESS_500_REPLY +:+ related_text
  else if contains "readiness" text || contains "liveness" text || contains "probe" text
  then PROBE_REPLY +:+ related_text
  else if contains "openstack" text || contains "nova" text
          || contains "neutron" text || contains "cinder" text
  then OPENSTACK_REPLY +:+ related_text
  else GENERIC_REPLY +:+ related_text.

(** [if x:] on a [str | None], keeping the value for the branch. *)
Definition if_truthy (o : option string) : option string :=
  match o with
  | Some s => if nonempty s then Some s else None
  | None => None
  end.

(** Lines 369 to 379 of [chat]: the delegate, then the fallback. *)
Definition answer_stage (env : environ) (post : http_request → http_outcome)
    (message : string) (knowledge : list dict) : result ChatResponse :=
  let openai_api_key := strip (getenv env "OPENAI_API_KEY" "") in
  let openrouter_api_key := strip (getenv env "OPENROUTER_API_KEY" "") in
  let llm_api_key := str_or openai_api_key openrouter_api_key in
  let llm_model := strip (getenv env "OPENAI_MODEL" "gpt-4.1-mini") in
  match _llm_reply env post message knowledge with
  | Raise e => Raise e
  | Ok llm =>
      match if_truthy llm with
      | Some llm => Ok {| reply := llm; source := "llm:" +:+ llm_model |}
      | None =>
          if negb (nonempty llm_api_key)
          then Ok {| reply := _fallback_reply message knowledge;
                     source := "fallback:no_llm_api_key" |}
          else Ok {| reply := _fallback_reply message knowledge;
                     source := "fallback:llm_unavailable" |}
      end
  end.

(** [chat]: the response, or the exception that escapes, and the
    knowledge file as the request leaves it. *)
Definition chat (env : environ) (post : http_request → http_outcome)
    (file : knowledge_file) (message : string)
    : result ChatResponse * knowledge_file :=
  match _load_knowledge file with
  | Raise e => (Raise e, file)
  | Ok knowledge =>
      match if_truthy (_smalltalk_reply message) with
      | Some smalltalk => (Ok {| reply := smalltalk; source := "intent" |}, file)
      | None =>
      match if_truthy (_find_reply message knowledge) with
      | Some matched => (Ok {| reply := matched; source := "knowledge.json" |}, file)
      | None =>
      match if_truthy (_openstack_script_reply message) with
      | Some scripted =>
          (Ok {| reply := scripted; source := "template:openstack_script" |}, file)
      | None =>
          let '(knowledge, file) :=
            if _is_incident_like message
            then _track_unknown_issue message knowledge file
            else (knowledge, file) in
          (answer_stage env post message knowledge, file)
      end end end
  end.

(** ** Sequences of requests and the records they add *)

(** The key under which the tracker compares questions. *)
Definition normalized_question (item : dict) : string :=
  lower (strip (question_of item)).

(** One [chat] request: configuration, delegate and message. *)
Record request := {
  rq_env : environ;
  rq_post : http_request → http_outcome;
  rq_message : string
}.

(** The knowledge file after a sequence of [chat] requests. *)
Fixpoint run_chats (requests : list request) (file : knowledge_file)
    : knowledge_file :=
  match requests with
  | [] => file
  | r :: rest =>
      run_chats rest (snd (chat (rq_env r) (rq_post r) file (rq_message r)))
  end.

(** [_track_unknown_issue] called for each message in turn, on the same
    list object. *)
Fixpoint track_all (messages : list string) (knowledge : list dict)
    (file : knowledge_file) : list dict * knowledge_file :=
  match messages with
  | [] => (knowledge, file)
  | m :: rest =>
      let '(knowledge, file) := _track_unknown_issue m knowledge file in
      track_all rest knowledge file
  end.

(** Each record of [added], in order, is an unresolved record whose
    normalized question equals the normalized question of no record
    before it, in [knowledge] or in [added]. *)
Fixpoint fresh (knowledge added : list dict) : Prop :=
  match added with
  | [] => True
  | r :: rest =>
      r = unresolved_record (question_of r)
      ∧ (normalized_question r ∉ normalized_question <$> knowledge)
      ∧ fresh (knowledge ++ [r])%list rest
  end.


(** ** The knowledge lookup as the specification words it (section 4.2) *)

Module Spec.

(** A record takes part in the lookup when its trimmed question and its
    trimmed answer are both non-empty. *)
Definition eligible (item : dict) : bool :=
  nonempty (strip (question_of item)) && nonempty (strip (answer_of item)).

(** Direct containment, either way, of the normalized texts. *)
Definition contained (text question : string) : bool :=
  contains question text || contains text question.

(** The question has tokens and at least 0.6 of them are tokens of the
    message: [|M ∩ Q| / |Q| ≥ 3/5], cleared of the division. *)
Definition overlaps (text question : string) : bool :=
  bool_decide (0 < size (tokens question)
               ∧ 3 * size (tokens question)
                 ≤ 5 * size (tokens text ∩ tokens question))%nat.

Definition record_matches (text : string) (item : dict) : bool :=
  let question := lower (strip (question_of item)) in
  eligible item && (contained text question || overlaps text question).

(** The answer of the first record, in store order, that matches. *)
Definition lookup (text : string) (knowledge : list dict) : option string :=
  (λ item, strip (answer_of item)) <$> List.find (record_matches text) knowledge.

End Spec.

(** ** The related topics as the specification words them (section 4.6) *)

Module RelatedSpec.

(** A stored record may be suggested when its trimmed question and
    answer are non-empty and its question shares a token with the
    message, that is, when its score is above zero. *)
Definition suggestible (msg_tokens : gset string) (item : dict) : bool :=
  nonempty (strip (question_of item))
  && nonempty (strip (answer_of item))
  && bool_decide (0 < size (msg_tokens ∩ tokens (lower (strip (question_of item)))))%nat.

(** overlap / question-token-count *)
Definition score (msg_tokens : gset string) (item : dict) : Q :=
  overlap_ratio msg_tokens (tokens (lower (strip (question_of item)))).

(** The suggestible records in store order, with their scores. *)
Definition candidates (msg_tokens : gset string) (knowledge : list dict)
    : list (Q * string) :=
  (λ item, (score msg_tokens item, strip (question_of item)))
    <$> List.filter (suggestible msg_tokens) knowledge.

(** The entries of a list whose score equals [s]. *)
Definition with_score (s : Q) (l : list (Q * string)) : list (Q * string) :=
  List.filter (λ a, Qeq_bool (fst a) s) l.

(** [a] may stand before [b]: its score is at least that of [b]. *)
Definition before (a b : Q * string) : Prop := (fst b <= fst a)%Q.

End RelatedSpec.

(** [isinstance(item, dict)] as a test. *)
Definition is_dict (item : json) : bool :=
  match item with JObject _ => true | _ => false end.

(** ** Predicates on texts used to state what the primitives do *)

(** Every character of [s] is whitespace. *)
Fixpoint all_space (s : string) : bool :=
  match s with
  | EmptyString => true
  | String c s' => is_space c && all_space s'
  end.

(** The first, resp. the last, character of [s] is whitespace. *)
Definition starts_with_space (s : string) : bool :=
  match s with
  | EmptyString => false
  | String c _ => is_space c
  end.

Fixpoint ends_with_space (s : string) : bool :=
  match s with
  | EmptyString => false
  | String c EmptyString => is_space c
  | String _ s' => ends_with_space s'
  end.

(** Every character of [s] is of the class [[a-z0-9]]. *)
Fixpoint all_alnum (s : string) : bool :=
  match s with
  | EmptyString => true
  | String c s' => is_alnum c && all_alnum s'
  end.

(** The characters of [s] of the class [[a-z0-9]], in order. *)
Fixpoint only_alnum (s : string) : string :=
  match s with
  | EmptyString => EmptyString
  | String c s' => if is_alnum c then String c (only_alnum s') else only_alnum s'
  end.

(** ** The client of [app.py] *)

(** What [requests.post] to the backend's [/chat] gives the client: a
    [requests.RequestException] (transport failure, error status, a
    body that is not JSON), carried as the text that [f"{exc}"] gives
    for it, or the JSON value that [response.json()] decodes from a
    success response, which need not be an object. *)
Inductive api_outcome :=
| ApiFailed (shown : string)
| ApiJson (data : json).

(** The dictionary that [call_chat_api] returns, with its two keys. *)
Record api_result := { api_reply : pyval; api_source : pyval }.

(** How a call of [call_chat_api] ends: a [RequestException] escapes,
    another exception escapes, or the dictionary is returned. *)
Inductive api_call :=
| CallFailed (shown : string)
| CallRaised (e : exn)
| CallReturned (result : api_result).

(** On a JSON value that is no object, [data.get] raises
    [AttributeError]. *)
Definition call_chat_api (backend : string → api_outcome) (message : string)
    : api_call :=
  match backend message with
  | ApiFailed shown => CallFailed shown
  | ApiJson (JObject data) =>
      CallReturned
        {| api_reply := default (PStr "No reply received.") (data !! "reply");
           api_source := default (PStr "unknown") (data !! "source") |}
  | ApiJson _ => CallRaised AttributeError
  end.

(** [send_user_message] on [st.session_state.messages]: the list after
    the call, and the exception that escapes the call, if any.  Only
    [requests.RequestException] is handled; the user entry is appended
    before the request is made. *)
Definition send_user_message (backend : string → api_outcome)
    (message : string) (messages : list dict) : list dict * option exn :=
  let msg := strip message in
  if negb (nonempty msg) then (messages, None)
  else
    let messages :=
      messages ++ [ ({[ "role" := PStr "user"; "content" := PStr msg ]} : dict) ] in
    match call_chat_api backend msg with
    | CallReturned result =>
        (messages ++ [ ({[ "role" := PStr "assistant";
                           "content" := api_reply result;
                           "source" := api_source result ]} : dict) ],
         None)
    | CallFailed exc =>
        (messages ++ [ ({[ "role" := PStr "assistant";
                           "content" := PStr ("Chat request failed: " +:+ exc);
                           "source" := PStr "error" ]} : dict) ],
         None)
    | CallRaised e => (messages, Some e)
    end.

(** The session after the user has sent [inputs] one after the other;
    the session state outlives a run that an exception ends. *)
Definition send_all (backend : string → api_outcome) (inputs : list string)
    (messages : list dict) : list dict :=
  foldl (λ messages input, fst (send_user_message backend input messages))
        messages inputs.

(** *** Words for what the client does *)

Definition user_entry (text : string) : dict :=
  {[ "role" := PStr "user"; "content" := PStr text ]}.

Definition assistant_entry (content source : pyval) : dict :=
  {[ "role" := PStr "assistant"; "content" := content; "source" := source ]}.

(** The backend answers in a way the client handles: a request failure
    or a JSON object. *)
Definition answers (outcome : api_outcome) : bool :=
  match outcome with
  | ApiFailed _ => true
  | ApiJson (JObject _) => true
  | ApiJson _ => false
  end.

(** The entries that sending the trimmed text [text] adds. *)
Definition exchange (backend : string → api_outcome) (text : string)
    : list dict :=
  match backend text with
  | ApiFailed shown =>
      [user_entry text;
       assistant_entry (PStr ("Chat request failed: " +:+ shown)) (PStr "error")]
  | ApiJson (JObject data) =>
      [user_entry text;
       assistant_entry (default (PStr "No reply received.") (data !! "reply"))
                       (default (PStr "unknown") (data !! "source"))]
  | ApiJson _ => [user_entry text]
  end.

(** The inputs that are not blank, trimmed, in order. *)
Definition sent_texts (inputs : list string) : list string :=
  strip <$> List.filter (λ input, nonempty (strip input)) inputs.

(** Every input is blank or gets an answer that the client handles. *)
Definition all_answered (backend : string → api_outcome)
    (inputs : list string) : bool :=
  forallb (λ input, negb (nonempty (strip input))
                    || answers (backend (strip input))) inputs.

(** The session is the conversation about [texts]: for each text in
    turn, the user entry that holds exactly that text, then one
    assistant entry with a content and a source. *)
Fixpoint conversation (texts : list string) (messages : list dict) : Prop :=
  match texts, messages with
  | [], [] => True
  | text :: texts, u :: a :: rest =>
      u = user_entry text
      ∧ a !! "role" = Some (PStr "assistant")
      ∧ is_Some (a !! "content") ∧ is_Some (a !! "source")
      ∧ conversation texts rest
  | _, _ => False
  end.

(** ** Words for the behaviour of [chat] as a whole *)

(** [llm_api_key] of lines 186 to 188 and 347 to 349: the OpenAI key, or
    else the OpenRouter key. *)
Definition llm_api_key_of (env : environ) : string :=
  str_or (strip (getenv env "OPENAI_API_KEY" ""))
         (strip (getenv env "OPENROUTER_API_KEY" "")).

(** No stage before the tracker answers, the message is incident-like
    and its normalized text is not a stored question. *)
Definition tracks (message : string) (knowledge : list dict) : bool :=
  bool_decide (_smalltalk_reply message = None)
  && bool_decide (_find_reply message knowledge = None)
  && bool_decide (_openstack_script_reply message = None)
  && _is_incident_like message
  && negb (bool_decide (lower (strip message)
                        ∈ normalized_question <$> knowledge)).

(** ** Sample environments, stores and messages *)

Module Samples.

(** No credential configured; a delegate that always fails. *)
Definition no_env : environ := ∅.
Definition llm_down : http_request → http_outcome := λ _, RequestException.

Definition volumes_message : string := "Delete all available OpenStack volumes".

Definition volumes_record : dict :=
  {[ "question" := PStr "openstack volumes"; "answer" := PStr "Ask the storage team." ]}.

Definition volumes_file : knowledge_file := Json (JArray [JObject volumes_record]).

(** A request with no credential and a failing delegate. *)
Definition ask (message : string) : request :=
  {| rq_env := no_env; rq_post := llm_down; rq_message := message |}.

(** A store in which the question "pod error" is already recorded as
    unresolved. *)
Definition pod_error_file : knowledge_file :=
  Json (JArray [JObject (unresolved_record "pod error")]).

Definition liveness_record : dict :=
  {[ "question" := PStr "Liveness probe failing"; "answer" := PStr "Check the probe path." ]}.

Definition pod_record : dict :=
  {[ "q" := PStr "pod restart loop"; "a" := PStr "Inspect previous logs." ]}.

(** An OpenAI credential and a delegate that answers every request. *)
Definition openai_env : environ := {[ "OPENAI_API_KEY" := " sk-test " ]}.
Definition llm_up : http_request → http_outcome := λ _, Completion " Restart the pod. ".

(** A backend that fails on "hi" and answers everything else with an
    object that has no source; one that answers with a JSON array. *)
Definition backend_mixed : string → api_outcome :=
  λ text, if decide (text = "hi") then ApiFailed "503 Server Error"
          else ApiJson (JObject {[ "reply" := PStr "Check the pod events." ]}).

Definition backend_array : string → api_outcome := λ _, ApiJson (JArray []).


End Samples.

(** ** Facts about the text primitives *)

Section TextFacts.

Example lower_latin1 :
  lower ("OpenStack " +:+ String "201"%char "") = "openstack " +:+ String "233"%char "".
Proof. reflexivity. Qed.

Example strip_whitespace :
  strip (String "031"%char "  pod  error " +:+ nl) = "pod  error".
Proof. reflexivity. Qed.

Example contains_empty : contains "" "" = true ∧ contains "pod" "a pod." = true.
Proof. split; reflexivity. Qed.

Example findall_runs :
  findall "pod-1 stuck_in crashLoop!" = ["pod"; "1"; "stuck"; "in"; "crash"; "oop"].
Proof. reflexivity. Qed.

Example overlap_two_of_three :
  size (tokens "pod is stuck now" ∩ tokens "pod stuck terminating") = 2.
Proof. reflexivity. Qed.

Lemma lower_char_space c : is_space c = true → lower_char c = c.
Proof.
  destruct c as [[] [] [] [] [] [] [] []]; vm_compute; congruence.
Qed.

Lemma nonempty_lower s : nonempty (lower s) = nonempty s.
Proof. by destruct s. Qed.

Lemma nonempty_false s : nonempty s = false ↔ s = "".
Proof. destruct s; naive_solver. Qed.

Lemma lstrip_idemp s : lstrip (lstrip s) = lstrip s.
Proof.
  induction s as [|c s IH]; [done|]. simpl.
  destruct (is_space c) eqn:Hc; [done|]. simpl. by rewrite Hc.
Qed.

Lemma rstrip_idemp s : rstrip (rstrip s) = rstrip s.
Proof.
  induction s as [|c s IH]; [done|]. simpl.
  destruct (rstrip s) as [|d r] eqn:Hr.
  - destruct (is_space c) eqn:Hc; [done|]. simpl. by rewrite Hc.
  - change (rstrip (String c (String d r)))
      with (match rstrip (String d r) with
            | "" => if is_space c then "" else String c ""
            | r' => String c r'
            end).
    by rewrite IH.
Qed.

Lemma rstrip_lstrip s : rstrip (lstrip s) = lstrip (rstrip s).
Proof.
  induction s as [|c s IH]; [done|]. simpl.
  destruct (is_space c) eqn:Hc.
  - rewrite IH. destruct (rstrip s) as [|d r]; simpl; by rewrite ?Hc.
  - change (rstrip (String c s))
      with (match rstrip s with
            | "" => if is_space c then "" else String c ""
            | r' => String c r'
            end).
    rewrite Hc. destruct (rstrip s); simpl; by rewrite Hc.
Qed.

Lemma strip_idemp s : strip (strip s) = strip s.
Proof.
  unfold strip.
  by rewrite (rstrip_lstrip (rstrip s)), rstrip_idemp, lstrip_idemp.
Qed.

Lemma mem_char_lower_lstrip c s :
  is_space c = false →
  mem_char c (lower s) = true → mem_char c (lower (lstrip s)) = true.
Proof.
  intros Hc. induction s as [|a s IH]; [done|]. simpl.
  destruct (is_space a) eqn:Ha; [|done].
  rewrite (lower_char_space a Ha).
  destruct (Ascii.eqb_spec c a) as [->|_]; [congruence|]. exact IH.
Qed.

Lemma mem_char_lower_rstrip c s :
  is_space c = false →
  mem_char c (lower s) = true → mem_char c (lower (rstrip s)) = true.
Proof.
  intros Hc. induction s as [|a s IH]; [done|]. simpl.
  intros [Heq|Hin]%orb_true_iff.
  - assert (is_space a = false) as Ha.
    { destruct (is_space a) eqn:Ha; [|done].
      rewrite (lower_char_space a Ha) in Heq.
      apply Ascii.eqb_eq in Heq. congruence. }
    destruct (rstrip s); rewrite ?Ha; simpl; by rewrite Heq.
  - specialize (IH Hin).
    destruct (rstrip s); [done|]. simpl in *. rewrite IH.
    apply orb_true_r.
Qed.

Lemma mem_char_lower_strip c s :
  is_space c = false →
  mem_char c (lower s) = true → mem_char c (lower (strip s)) = true.
Proof.
  intros Hc Hin. unfold strip.
  by apply mem_char_lower_lstrip, mem_char_lower_rstrip.
Qed.

Lemma prefix_mem_char c sub s :
  String.prefix sub s = true → mem_char c sub = true → mem_char c s = true.
Proof.
  revert s. induction sub as [|a sub IH]; [done|].
  intros [|b s]; [done|]. simpl.
  destruct (ascii_dec a b) as [->|]; [|done].
  intros Hp [->|Hin]%orb_true_iff; [done|].
  rewrite (IH s Hp Hin). apply orb_true_r.
Qed.

Lemma contains_nil sub : contains sub "" = String.prefix sub "".
Proof. unfold contains. apply orb_false_r. Qed.

Lemma contains_cons sub a s :
  contains sub (String a s) = String.prefix sub (String a s) || contains sub s.
Proof. reflexivity. Qed.

Lemma contains_mem_char c sub s :
  contains sub s = true → mem_char c sub = true → mem_char c s = true.
Proof.
  intros Hs Hc. induction s as [|a s IH].
  - rewrite contains_nil in Hs. exact (prefix_mem_char c sub "" Hs Hc).
  - rewrite contains_cons in Hs. apply orb_true_iff in Hs as [Hp|Hs].
    + exact (prefix_mem_char c sub _ Hp Hc).
    + simpl. rewrite (IH Hs). apply orb_true_r.
Qed.

End TextFacts.

(** ** The script template and the stages before it *)

Section Template.

Lemma covers_intro sub s :
  (∀ c, mem_char c sub = true → mem_char c s = true) → covers sub s = true.
Proof.
  unfold covers. intros H. apply forallb_forall. intros c Hc. apply H.
  clear H. induction sub as [|a sub IH]; [done|]. simpl in *.
  destruct Hc as [->|Hc]; [by rewrite Ascii.eqb_refl|].
  rewrite (IH Hc). apply orb_true_r.
Qed.

Lemma openstack_covers message :
  contains "openstack" (lower message) = true →
  covers "openstack" (lower (strip message)) = true.
Proof.
  intros H. apply covers_intro. intros c Hc.
  apply mem_char_lower_strip.
  - simpl in Hc. repeat (apply orb_true_iff in Hc as [Hc|Hc];
      [apply Ascii.eqb_eq in Hc; by subst|]). done.
  - by eapply contains_mem_char.
Qed.

(** A message that names OpenStack is no greeting, thanks or help
    phrase, and is not blank. *)
Lemma smalltalk_silent message :
  contains "openstack" (lower message) = true → _smalltalk_reply message = None.
Proof.
  intros H%openstack_covers. unfold _smalltalk_reply.
  assert (nonempty (lower (strip message)) = true) as ->.
  { by destruct (lower (strip message)). }
  simpl. repeat case_bool_decide; try done;
    match goal with Hin : _ ∈ _ |- _ =>
      unfold greetings, thanks, help_phrases in Hin; set_unfold in Hin
    end;
    destruct_or!;
    match goal with Heq : lower _ = _ |- _ =>
      rewrite Heq in H; by vm_compute in H
    end.
Qed.

Lemma find_reply_loop_truthy text msg_tokens knowledge :
  if_truthy (find_reply_loop text msg_tokens knowledge)
  = find_reply_loop text msg_tokens knowledge.
Proof.
  induction knowledge as [|item rest IH]; [done|]. simpl.
  destruct (nonempty (lower (strip (question_of item)))); [|done].
  destruct (nonempty (strip (answer_of item))) eqn:Ha; [|done]. simpl.
  repeat case_match; try done; simpl; by rewrite Ha.
Qed.

Lemma find_reply_truthy message knowledge :
  if_truthy (_find_reply message knowledge) = _find_reply message knowledge.
Proof.
  unfold _find_reply. case_match; [done|]. apply find_reply_loop_truthy.
Qed.

(** C1, as amended: a message whose lowercased text contains
    "openstack", "volume", "available" and one of "delete" / "remove"
    gets the static script reply, which contains the header
    [#!/usr/bin/env bash], with source [template:openstack_script],
    when the knowledge lookup finds no match for it in the loaded store;
    when a stored record matches, that record's answer is returned with
    source [knowledge.json].  The knowledge file is left as it was. *)
Theorem template_after_knowledge_lookup env post file message knowledge :
  contains "openstack" (lower message) = true →
  contains "volume" (lower message) = true →
  contains "delete" (lower message) = true
    ∨ contains "remove" (lower message) = true →
  contains "available" (lower message) = true →
  _load_knowledge file = Ok knowledge →
  chat env post file message =
    (Ok match _find_reply message knowledge with
        | Some answer => {| reply := answer; source := "knowledge.json" |}
        | None => {| reply := OPENSTACK_SCRIPT;
                     source := "template:openstack_script" |}
        end, file)
  ∧ contains "#!/usr/bin/env bash" OPENSTACK_SCRIPT = true.
Proof.
  intros Ho Hv Hd Ha Hload. split; [|by vm_compute].
  unfold chat. rewrite Hload, (smalltalk_silent message Ho). simpl.
  rewrite find_reply_truthy. destruct (_find_reply message knowledge); [done|].
  unfold _openstack_script_reply. rewrite Ho, Hv, Ha.
  assert (contains "delete" (lower message)
          || contains "remove" (lower message) = true) as ->.
  { apply orb_true_iff. tauto. }
  done.
Qed.

Lemma template_after_knowledge_lookup_witness :
  chat Samples.no_env Samples.llm_down NoFile Samples.volumes_message =
    (Ok {| reply := OPENSTACK_SCRIPT; source := "template:openstack_script" |},
     NoFile)
  ∧ contains "#!/usr/bin/env bash" OPENSTACK_SCRIPT = true.
Proof.
  apply (template_after_knowledge_lookup
           Samples.no_env Samples.llm_down NoFile Samples.volumes_message []);
    vm_compute; auto.
Defined.

(** C1 as stated fails: with a stored record whose question is part of
    the message, the reply is that record's answer and the source is
    [knowledge.json], not the template. *)
Lemma template_not_regardless_of_store :
  contains "openstack" (lower Samples.volumes_message) = true
  ∧ contains "volume" (lower Samples.volumes_message) = true
  ∧ contains "delete" (lower Samples.volumes_message) = true
  ∧ contains "available" (lower Samples.volumes_message) = true
  ∧ fst (chat Samples.no_env Samples.llm_down Samples.volumes_file
           Samples.volumes_message)
    = Ok {| reply := "Ask the storage team."; source := "knowledge.json" |}
  ∧ "knowledge.json" ≠ "template:openstack_script".
Proof. vm_compute. repeat split; done. Qed.

End Template.

(** ** The knowledge lookup *)

Section Lookup.

Lemma overlap_ratio_ge (m q : gset string) :
  size q ≠ 0 →
  Qle_bool (6 # 10) (overlap_ratio m q) = true
  ↔ (3 * size q ≤ 5 * size (m ∩ q))%nat.
Proof.
  intros Hq. unfold overlap_ratio, Qle_bool. cbn [Qnum Qden].
  rewrite Z.leb_le.
  replace (Z.pos (Pos.of_nat (size q))) with (Z.of_nat (size q)); [lia|].
  destruct (size q) as [|n]; [done|].
  by rewrite <- Pos.of_nat_succ, Zpos_P_of_succ_nat, Nat2Z.inj_succ.
Qed.

Lemma tokens_empty_size (s : string) : tokens s = ∅ ↔ size (tokens s) = 0.
Proof.
  split; [intros ->; apply size_empty|].
  intros H. by apply leibniz_equiv, size_empty_inv.
Qed.

Lemma find_reply_loop_spec text knowledge :
  find_reply_loop text (tokens text) knowledge = Spec.lookup text knowledge.
Proof.
  unfold Spec.lookup.
  induction knowledge as [|item rest IH]; [done|]. simpl.
  unfold Spec.record_matches, Spec.eligible, Spec.contained, Spec.overlaps.
  rewrite nonempty_lower.
  destruct (nonempty (strip (question_of item)) && nonempty (strip (answer_of item)));
    simpl; [|exact IH].
  destruct (contains _ text || contains text _); [done|]. simpl.
  case_bool_decide as Hq.
  - apply tokens_empty_size in Hq. rewrite bool_decide_eq_false_2 by lia. exact IH.
  - rewrite tokens_empty_size in Hq.
    destruct (Qle_bool _ _) eqn:Hr.
    + apply overlap_ratio_ge in Hr; [|done].
      rewrite bool_decide_eq_true_2; [done|lia].
    + rewrite bool_decide_eq_false_2; [exact IH|].
      intros [_ Hle]. apply overlap_ratio_ge in Hle; [congruence|done].
Qed.

(** C3, as amended: for a message that is not blank, [_find_reply]
    returns the answer of the first record, in store order, that is
    eligible (trimmed question and answer non-empty) and either contains
    or is contained in the normalized message, or else has tokens of
    which at least 0.6 are tokens of the message; it returns [None] when
    no record is such.  For a blank message it returns the fixed prompt
    for input and does not look at the store. *)
Theorem find_reply_is_first_match message knowledge :
  _find_reply message knowledge =
    if nonempty (strip message)
    then Spec.lookup (lower (strip message)) knowledge
    else Some PROMPT_FOR_INPUT.
Proof.
  unfold _find_reply. rewrite nonempty_lower.
  destruct (nonempty (strip message)); [|done]. apply find_reply_loop_spec.
Qed.

(** C3 as stated fails on a blank message: no record satisfies either
    rule (the store is empty), and the lookup still returns a reply. *)
Lemma find_reply_blank_message_is_answered :
  Spec.lookup (lower (strip "  ")) [] = None
  ∧ _find_reply "  " [] = Some PROMPT_FOR_INPUT.
Proof. by vm_compute. Qed.

End Lookup.

(** ** The incident tracker and the knowledge file *)

Section Tracker.

Lemma question_of_unresolved q : question_of (unresolved_record q) = q.
Proof. reflexivity. Qed.


Lemma status_of_unresolved q :
  unresolved_record q !! "status" = Some (PStr "unresolved").
Proof. reflexivity. Qed.

Lemma normalized_unresolved message :
  normalized_question (unresolved_record (strip message)) = lower (strip message).
Proof.
  unfold normalized_question. by rewrite question_of_unresolved, strip_idemp.
Qed.

Lemma load_save knowledge :
  _load_knowledge (_save_knowledge knowledge) = Ok knowledge.
Proof.
  unfold _save_knowledge, _load_knowledge. f_equal.
  induction knowledge as [|item rest IH]; [done|].
  rewrite fmap_cons. cbn [omap list_omap as_dict]. by rewrite IH.
Qed.

(** What one call of the tracker does. *)
Lemma track_unknown_issue_spec message knowledge file :
  _track_unknown_issue message knowledge file =
    if nonempty (strip message)
       && negb (bool_decide (lower (strip message)
                             ∈ normalized_question <$> knowledge))
    then ((knowledge ++ [unresolved_record (strip message)])%list,
          _save_knowledge (knowledge ++ [unresolved_record (strip message)]))
    else (knowledge, file).
Proof.
  unfold _track_unknown_issue.
  destruct (nonempty (strip message)); [|done]. simpl.
  rewrite (bool_decide_ext _ (lower (strip message)
                              ∈ normalized_question <$> knowledge)).
  - by case_bool_decide.
  - apply elem_of_list_to_set.
Qed.

(** A [chat] request leaves the file alone or appends one fresh
    unresolved record for its message. *)
Lemma chat_file_effect env post file message knowledge :
  _load_knowledge file = Ok knowledge →
  snd (chat env post file message) = file
  ∨ ((lower (strip message) ∉ normalized_question <$> knowledge)
     ∧ snd (chat env post file message)
       = _save_knowledge (knowledge ++ [unresolved_record (strip message)])).
Proof.
  intros Hload. unfold chat. rewrite Hload.
  repeat (case_match; [by left|]).
  rewrite track_unknown_issue_spec.
  destruct (_is_incident_like message); [|by left].
  destruct (nonempty (strip message)); [|by left]. simpl.
  case_bool_decide; [by left|]. by right.
Qed.

Lemma run_chats_fresh requests : ∀ file knowledge,
  _load_knowledge file = Ok knowledge →
  ∃ added,
    _load_knowledge (run_chats requests file) = Ok (knowledge ++ added)
    ∧ fresh knowledge added.
Proof.
  induction requests as [|r rest IH]; intros file knowledge Hload.
  - exists []. by rewrite app_nil_r.
  - cbn [run_chats].
    destruct (chat_file_effect (rq_env r) (rq_post r) file (rq_message r)
                knowledge Hload) as [->|[Hnew ->]].
    + by apply IH.
    + destruct (IH _ _ (load_save
                          (knowledge ++ [unresolved_record (strip (rq_message r))])))
        as (added & Hfinal & Hfresh).
      exists (unresolved_record (strip (rq_message r)) :: added).
      rewrite <- app_assoc in Hfinal. split; [exact Hfinal|].
      cbn [fresh]. rewrite question_of_unresolved, normalized_unresolved.
      done.
Qed.

(** C2, as amended: the tracker compares the normalized (trimmed,
    lowercased) question of the message with the normalized questions
    of the stored records for equality only, and suppresses the append
    when an equal one exists.  So in every store that a sequence of
    [chat] requests reaches, each record added since the start is an
    unresolved record whose normalized question equals no earlier
    record's (substring matches are not excluded). *)
Theorem tracker_appends_only_new_questions requests file knowledge :
  _load_knowledge file = Ok knowledge →
  ∃ added,
    _load_knowledge (run_chats requests file) = Ok (knowledge ++ added)
    ∧ fresh knowledge added
    ∧ ∀ message file',
        lower (strip message) ∈ (normalized_question <$> knowledge ++ added) →
        _track_unknown_issue message (knowledge ++ added) file'
        = (knowledge ++ added, file').
Proof.
  intros Hload.
  destruct (run_chats_fresh requests file knowledge Hload) as (added & H1 & H2).
  exists added. split_and!; [done..|].
  intros message file' Hin. rewrite track_unknown_issue_spec.
  rewrite bool_decide_eq_true_2 by done. by rewrite andb_false_r.
Qed.

Lemma tracker_appends_only_new_questions_witness :
  ∃ added,
    _load_knowledge
      (run_chats [Samples.ask "pod error"; Samples.ask "Pod Error "] NoFile)
    = Ok ([] ++ added)
    ∧ fresh [] added
    ∧ ∀ message file',
        lower (strip message) ∈ (normalized_question <$> [] ++ added) →
        _track_unknown_issue message ([] ++ added) file' = ([] ++ added, file').
Proof.
  apply (tracker_appends_only_new_questions
           [Samples.ask "pod error"; Samples.ask "Pod Error "] NoFile []).
  reflexivity.
Defined.

(** C2 as stated fails for substring matches: after the question
    "pod error on node" is stored, the message "pod error", which is
    part of it, is still appended as a second unresolved record. *)
Lemma tracker_appends_substring_question :
  _load_knowledge
    (run_chats [Samples.ask "pod error on node"; Samples.ask "pod error"] NoFile)
  = Ok [unresolved_record "pod error on node"; unresolved_record "pod error"]
  ∧ contains (normalized_question (unresolved_record "pod error"))
             (normalized_question (unresolved_record "pod error on node"))
    = true.
Proof. split; reflexivity. Qed.

Lemma find_reply_none_nonempty message knowledge :
  _find_reply message knowledge = None → nonempty (strip message) = true.
Proof.
  unfold _find_reply. rewrite nonempty_lower.
  by destruct (nonempty (strip message)).
Qed.

(** A record without an answer at the end of the store is invisible to
    the lookup. *)
Lemma find_reply_loop_unanswered text msg_tokens knowledge r :
  strip (answer_of r) = "" →
  find_reply_loop text msg_tokens (knowledge ++ [r])
  = find_reply_loop text msg_tokens knowledge.
Proof.
  intros Hr. induction knowledge as [|item rest IH]; simpl.
  - by rewrite Hr, andb_false_r.
  - by rewrite IH.
Qed.

Lemma find_reply_unanswered message knowledge r :
  strip (answer_of r) = "" →
  _find_reply message (knowledge ++ [r]) = _find_reply message knowledge.
Proof.
  intros Hr. unfold _find_reply. case_match; [done|].
  by apply find_reply_loop_unanswered.
Qed.

(** When no stage before the tracker answers an incident-like message,
    the file that [chat] leaves is the one the tracker leaves. *)
Lemma chat_file_unanswered env post file message knowledge :
  _load_knowledge file = Ok knowledge →
  _smalltalk_reply message = None →
  _find_reply message knowledge = None →
  _openstack_script_reply message = None →
  _is_incident_like message = true →
  snd (chat env post file message)
  = snd (_track_unknown_issue message knowledge file).
Proof.
  intros Hload Hs Hf Ho Hi. unfold chat.
  rewrite Hload, Hs, Hf, Ho, Hi. simpl.
  by destruct (_track_unknown_issue message knowledge file).
Qed.

(** C4, as amended: when [chat] runs twice with the same incident-like
    message that no earlier stage answers, the second run appends
    nothing; the two runs together append exactly one unresolved record
    when the normalized message is not yet a stored question, and none
    when it already is. *)
Theorem repeated_incident_is_tracked_once
    env1 post1 env2 post2 file message knowledge :
  _load_knowledge file = Ok knowledge →
  _smalltalk_reply message = None →
  _find_reply message knowledge = None →
  _openstack_script_reply message = None →
  _is_incident_like message = true →
  _load_knowledge (snd (chat env1 post1 file message))
  = Ok (if bool_decide (lower (strip message)
                        ∈ normalized_question <$> knowledge)
        then knowledge
        else knowledge ++ [unresolved_record (strip message)])
  ∧ snd (chat env2 post2 (snd (chat env1 post1 file message)) message)
    = snd (chat env1 post1 file message).
Proof.
  intros Hload Hs Hf Ho Hi.
  rewrite (chat_file_unanswered env1 post1 file message knowledge) by done.
  rewrite track_unknown_issue_spec.
  rewrite (find_reply_none_nonempty _ _ Hf).
  case_bool_decide as Hin; cbn [andb negb snd].
  - split; [done|].
    rewrite (chat_file_unanswered env2 post2 file message knowledge) by done.
    rewrite track_unknown_issue_spec.
    rewrite bool_decide_eq_true_2 by done. by rewrite andb_false_r.
  - rewrite load_save. split; [done|].
    erewrite chat_file_unanswered; [|apply load_save|done| |done..].
    + rewrite track_unknown_issue_spec.
      rewrite bool_decide_eq_true_2; [by rewrite andb_false_r|].
      rewrite fmap_app, elem_of_app. right.
      rewrite list_fmap_singleton, normalized_unresolved. by apply list_elem_of_singleton.
    + by rewrite find_reply_unanswered.
Qed.

Lemma repeated_incident_is_tracked_once_witness :
  _load_knowledge
    (snd (chat Samples.no_env Samples.llm_down NoFile "Pod error on node 3"))
  = Ok (if bool_decide (lower (strip "Pod error on node 3")
                        ∈ normalized_question <$> [])
        then []
        else [] ++ [unresolved_record (strip "Pod error on node 3")])
  ∧ snd (chat Samples.no_env Samples.llm_down
           (snd (chat Samples.no_env Samples.llm_down NoFile
                   "Pod error on node 3"))
           "Pod error on node 3")
    = snd (chat Samples.no_env Samples.llm_down NoFile "Pod error on node 3").
Proof.
  apply (repeated_incident_is_tracked_once
           Samples.no_env Samples.llm_down Samples.no_env Samples.llm_down
           NoFile "Pod error on node 3" []); reflexivity.
Defined.

(** C4 as stated fails when the question is already stored: no stage
    answers "pod error", it is incident-like, and two runs append no
    record at all. *)
Lemma repeated_incident_already_stored_appends_none :
  _smalltalk_reply "pod error" = None
  ∧ _find_reply "pod error" [unresolved_record "pod error"] = None
  ∧ _openstack_script_reply "pod error" = None
  ∧ _is_incident_like "pod error" = true
  ∧ _load_knowledge Samples.pod_error_file = Ok [unresolved_record "pod error"]
  ∧ _load_knowledge
      (run_chats [Samples.ask "pod error"; Samples.ask "pod error"]
         Samples.pod_error_file)
    = Ok [unresolved_record "pod error"].
Proof. repeat split; reflexivity. Qed.

(** C6: starting from the store that the file holds, tracker calls for
    N messages whose normalized questions are distinct and not yet
    stored append N records; reloading the file then yields the
    original records followed by those N records, in the order of the
    calls, each with an empty answer and the status "unresolved". *)
Theorem appended_records_survive_reload messages : ∀ file knowledge,
  _load_knowledge file = Ok knowledge →
  NoDup (lower ∘ strip <$> messages) →
  Forall (λ m, nonempty (strip m) = true
               ∧ lower (strip m) ∉ normalized_question <$> knowledge)
         messages →
  fst (track_all messages knowledge file)
  = knowledge ++ (unresolved_record ∘ strip <$> messages)
  ∧ _load_knowledge (snd (track_all messages knowledge file))
    = Ok (knowledge ++ (unresolved_record ∘ strip <$> messages))
  ∧ Forall (λ r : dict, r !! "answer" = Some (PStr "")
                        ∧ r !! "status" = Some (PStr "unresolved"))
      (unresolved_record ∘ strip <$> messages).
Proof.
  induction messages as [|m rest IH]; intros file knowledge Hload Hnd Hall.
  - simpl. rewrite app_nil_r. by split_and!.
  - rewrite fmap_cons in Hnd. apply NoDup_cons in Hnd as [Hm Hnd].
    apply Forall_cons in Hall as [[Hne Hnew] Hall].
    cbn [track_all]. rewrite track_unknown_issue_spec, Hne.
    rewrite bool_decide_eq_false_2 by done. cbn [andb negb].
    destruct (IH (_save_knowledge (knowledge ++ [unresolved_record (strip m)]))
                (knowledge ++ [unresolved_record (strip m)]))
      as (H1 & H2 & H3); [apply load_save|done| |].
    + apply Forall_forall. intros m' Hm'.
      rewrite Forall_forall in Hall. destruct (Hall m' Hm') as [? Hout].
      split; [done|].
      rewrite fmap_app, elem_of_app, list_fmap_singleton, normalized_unresolved.
      intros [?|Heq%list_elem_of_singleton]; [done|].
      apply Hm. change ((lower ∘ strip) m) with (lower (strip m)).
      rewrite <- Heq. by apply (list_elem_of_fmap_2 (lower ∘ strip)).
    + rewrite <- app_assoc in H1, H2. split_and!; [done..|].
      rewrite fmap_cons. by apply Forall_cons.
Qed.

Lemma appended_records_survive_reload_witness :
  fst (track_all ["pod error"; " Nova timeout "] [] NoFile)
  = [] ++ (unresolved_record ∘ strip <$> ["pod error"; " Nova timeout "])
  ∧ _load_knowledge (snd (track_all ["pod error"; " Nova timeout "] [] NoFile))
    = Ok ([] ++ (unresolved_record ∘ strip <$> ["pod error"; " Nova timeout "]))
  ∧ Forall (λ r : dict, r !! "answer" = Some (PStr "")
                        ∧ r !! "status" = Some (PStr "unresolved"))
      (unresolved_record ∘ strip <$> ["pod error"; " Nova timeout "]).
Proof.
  apply (appended_records_survive_reload
           ["pod error"; " Nova timeout "] NoFile []).
  - reflexivity.
  - apply (bool_decide_unpack _). vm_compute. exact I.
  - apply (bool_decide_unpack _). vm_compute. exact I.
Defined.

End Tracker.

(** ** The tracker does not touch the reply *)

Section Frame.

Variables (env : environ) (post : http_request → http_outcome).




Lemma scored_topics_unanswered msg_tokens knowledge r :
  strip (answer_of r) = "" →
  scored_topics msg_tokens (knowledge ++ [r]) = scored_topics msg_tokens knowledge.
Proof.
  intros Hr. induction knowledge as [|item rest IH]; simpl.
  - rewrite Hr. by destruct (nonempty (strip (question_of r))).
  - by rewrite IH.
Qed.

Lemma related_topics_unanswered message knowledge r limit :
  strip (answer_of r) = "" →
  _related_topics message (knowledge ++ [r]) limit
  = _related_topics message knowledge limit.
Proof.
  intros Hr. unfold _related_topics. by rewrite scored_topics_unanswered.
Qed.

Lemma fallback_reply_unanswered message knowledge r :
  strip (answer_of r) = "" →
  _fallback_reply message (knowledge ++ [r]) = _fallback_reply message knowledge.
Proof.
  intros Hr. unfold _fallback_reply, related_text.
  by rewrite related_topics_unanswered.
Qed.



End Frame.

(** ** Loading the knowledge file *)

Section Load.

(** C9: when [json.loads] decodes the file, a top-level object loads
    as the store holding that one record, a top-level array loads as
    its object elements, in order, the other elements being dropped,
    and a top-level string, number, boolean or null loads as the empty
    store.  But [json.loads] does not decode every well-formed file: on
    an integer literal of more than 4300 digits (alone, the file is a
    top-level number) it raises [ValueError], and on an array nested
    too deep it raises [RecursionError]; the handler of line 121
    catches neither, so the load raises, and so does [chat], where the
    claim has the empty store or the object elements. *)
Theorem load_knowledge_by_shape :
  (∀ d, _load_knowledge (Json (JObject d)) = Ok [d])
  ∧ (∀ items, ∃ knowledge,
        _load_knowledge (Json (JArray items)) = Ok knowledge
        ∧ JObject <$> knowledge = List.filter is_dict items)
  ∧ (∀ s, _load_knowledge (Json (JString s)) = Ok [])
  ∧ (∀ n, _load_knowledge (Json (JNumber n)) = Ok [])
  ∧ (∀ b, _load_knowledge (Json (JBool b)) = Ok [])
  ∧ _load_knowledge (Json JNull) = Ok []
  ∧ _load_knowledge IntegerTooLong = Raise ValueError
  ∧ _load_knowledge NestingTooDeep = Raise RecursionError
  ∧ (∀ env post message,
        fst (chat env post IntegerTooLong message) = Raise ValueError
        ∧ fst (chat env post NestingTooDeep message) = Raise RecursionError).
Proof.
  split_and!; try done.
  intros items. exists (omap as_dict items). split; [done|].
  induction items as [|item rest IH]; [done|].
  destruct item; cbn [omap list_omap as_dict List.filter is_dict]; try done.
  rewrite fmap_cons. by f_equal.
Qed.

Example load_mixed_array :
  _load_knowledge
    (Json (JArray [JNumber "1"; JObject (unresolved_record "pod error");
                   JString "x"; JArray []; JObject ∅]))
  = Ok [unresolved_record "pod error"; ∅].
Proof. reflexivity. Qed.

(** C7: a missing file, a file of size zero and a file whose text is
    not JSON load as the empty store.  A file whose bytes are not
    UTF-8 makes [read_text] raise [UnicodeDecodeError], which the
    handler for [json.JSONDecodeError] does not catch: the load raises,
    and so does [chat].  The same handler lets through the [OSError]
    of a file that cannot be read and the [ValueError] and
    [RecursionError] that [json.loads] raises on some well-formed
    files. *)
Theorem load_knowledge_storage_errors env post message :
  _load_knowledge NoFile = Ok []
  ∧ _load_knowledge ZeroBytes = Ok []
  ∧ _load_knowledge NotJson = Ok []
  ∧ _load_knowledge NotUtf8 = Raise UnicodeDecodeError
  ∧ fst (chat env post NotUtf8 message) = Raise UnicodeDecodeError
  ∧ _load_knowledge Unreadable = Raise OSError
  ∧ _load_knowledge IntegerTooLong = Raise ValueError
  ∧ _load_knowledge NestingTooDeep = Raise RecursionError.
Proof. by split_and!. Qed.

End Load.

(** ** The fallback responder *)

Section Ranking.

Import RelatedSpec.

Lemma insert_desc_perm x l : insert_desc x l ≡ₚ x :: l.
Proof.
  induction l as [|y l IH]; [done|]. simpl.
  destruct (Qle_bool (fst y) (fst x)); [done|].
  rewrite IH. apply Permutation_swap.
Qed.

Lemma sort_desc_perm l : sort_desc l ≡ₚ l.
Proof.
  induction l as [|x l IH]; [done|]. simpl.
  by rewrite insert_desc_perm, IH.
Qed.

Lemma insert_desc_sorted x l :
  StronglySorted before l → StronglySorted before (insert_desc x l).
Proof.
  induction l as [|y l IH]; intros Hl; simpl.
  - repeat constructor.
  - apply StronglySorted_cons in Hl as [Hy Hl].
    destruct (Qle_bool (fst y) (fst x)) eqn:Hle.
    + apply Qle_bool_iff in Hle.
      apply StronglySorted_cons. split.
      * constructor; [done|].
        eapply Forall_impl; [exact Hy|]. unfold before. intros z Hz.
        by eapply Qle_trans.
      * by apply StronglySorted_cons.
    + apply StronglySorted_cons. split; [|by apply IH].
      rewrite insert_desc_perm. constructor; [|done].
      unfold before. apply Qlt_le_weak, Qnot_le_lt.
      intros Hyx%Qle_bool_iff. congruence.
Qed.

Lemma sort_desc_sorted l : StronglySorted before (sort_desc l).
Proof.
  induction l as [|x l IH]; simpl; [constructor|by apply insert_desc_sorted].
Qed.

(** Inserting keeps the entries of any one score in their order, the
    new entry first among them. *)
Lemma insert_desc_stable s x l :
  with_score s (insert_desc x l) = with_score s (x :: l).
Proof.
  unfold with_score. induction l as [|y l IH]; [done|]. simpl.
  destruct (Qle_bool (fst y) (fst x)) eqn:Hle; [done|].
  simpl in *. rewrite IH.
  destruct (Qeq_bool (fst x) s) eqn:Hx; [|done].
  destruct (Qeq_bool (fst y) s) eqn:Hy; [|done].
  apply Qeq_bool_iff in Hx, Hy.
  assert (Qle_bool (fst y) (fst x) = true); [|congruence].
  apply Qle_bool_iff. rewrite Hx, Hy. apply Qle_refl.
Qed.

Lemma sort_desc_stable s l : with_score s (sort_desc l) = with_score s l.
Proof.
  induction l as [|x l IH]; [done|]. simpl.
  rewrite insert_desc_stable. unfold with_score in *. simpl. by rewrite IH.
Qed.

Lemma overlap_ratio_positive (m q : gset string) :
  negb (Qle_bool (overlap_ratio m q) 0) = bool_decide (0 < size (m ∩ q))%nat.
Proof.
  unfold overlap_ratio, Qle_bool. cbn [Qnum Qden].
  case_bool_decide; [apply negb_true_iff, Z.leb_gt|apply negb_false_iff, Z.leb_le];
    lia.
Qed.

(** The loop of [_related_topics] collects the candidates. *)
Lemma scored_topics_candidates msg_tokens knowledge :
  scored_topics msg_tokens knowledge = candidates msg_tokens knowledge.
Proof.
  unfold candidates.
  induction knowledge as [|item rest IH]; [done|]. simpl.
  unfold suggestible at 1.
  destruct (nonempty (strip (question_of item))); [|exact IH].
  destruct (nonempty (strip (answer_of item))); [|exact IH]. simpl.
  rewrite overlap_ratio_positive.
  case_bool_decide as Hq.
  - rewrite Hq, intersection_empty_r_L, size_empty.
    rewrite bool_decide_eq_false_2 by lia. exact IH.
  - case_bool_decide; [|exact IH]. rewrite fmap_cons. by f_equal.
Qed.

(** C8: [_fallback_reply] returns a reply for every message and store:
    the text of the first keyword group that matches (liveness and 500,
    then a probe word, then an OpenStack service name, else the generic
    pod guidance) followed by the related-topics suffix.  The suffix
    lists the questions of the first three entries of a ranking of the
    candidates (stored records with non-empty question and answer and a
    score above zero): the ranking is a rearrangement of the candidates
    with scores descending in which entries of equal score keep their
    store order.  With no candidate the suffix is empty. *)
Theorem fallback_reply_ranks_related_topics message knowledge :
  ∃ ranked : list (Q * string),
    ranked ≡ₚ candidates (tokens (lower message)) knowledge
    ∧ StronglySorted before ranked
    ∧ (∀ s, with_score s ranked
            = with_score s (candidates (tokens (lower message)) knowledge))
    ∧ _related_topics message knowledge 3 = snd <$> take 3 ranked
    ∧ length (_related_topics message knowledge 3)
      = 3 `min` length (candidates (tokens (lower message)) knowledge)
    ∧ related_text message knowledge
      = match _related_topics message knowledge 3 with
        | [] => ""
        | topics => nl +:+ "Related topics you can ask: " +:+ join ", " topics
        end
    ∧ _fallback_reply message knowledge
      = (if contains "liveness" (lower message) && contains "500" (lower message)
         then LIVENESS_500_REPLY
         else if contains "readiness" (lower message)
                 || contains "liveness" (lower message)
                 || contains "probe" (lower message)
         then PROBE_REPLY
         else if contains "openstack" (lower message)
                 || contains "nova" (lower message)
                 || contains "neutron" (lower message)
                 || contains "cinder" (lower message)
         then OPENSTACK_REPLY
         else GENERIC_REPLY)
        +:+ related_text message knowledge.
Proof.
  exists (sort_desc (scored_topics (tokens (lower message)) knowledge)).
  rewrite <- scored_topics_candidates. split_and!.
  - apply sort_desc_perm.
  - apply sort_desc_sorted.
  - intros s. apply sort_desc_stable.
  - done.
  - unfold _related_topics.
    by rewrite length_fmap, length_take, sort_desc_perm.
  - unfold related_text. by destruct (_related_topics message knowledge 3).
  - unfold _fallback_reply. by repeat case_match.
Qed.

Example fallback_ranking :
  _fallback_reply "liveness probe on pod returns 500"
    [Samples.pod_record; unresolved_record "liveness probe";
     Samples.liveness_record]
  = LIVENESS_500_REPLY +:+ nl +:+ "Related topics you can ask: "
    +:+ "Liveness probe failing, pod restart loop".
Proof. reflexivity. Qed.

(** C10: when neither of the two probe groups matches, the reply is the
    OpenStack text exactly when the lowercased message contains
    "openstack", "nova", "neutron" or "cinder"; a message that has the
    token "glance" or "keystone" is incident-like, and when it contains
    none of those four names it gets the generic pod text. *)
Theorem fallback_openstack_branch message knowledge :
  contains "liveness" (lower message) && contains "500" (lower message) = false →
  contains "readiness" (lower message) || contains "liveness" (lower message)
    || contains "probe" (lower message) = false →
  (_fallback_reply message knowledge
   = OPENSTACK_REPLY +:+ related_text message knowledge
   ↔ contains "openstack" (lower message) = true
     ∨ contains "nova" (lower message) = true
     ∨ contains "neutron" (lower message) = true
     ∨ contains "cinder" (lower message) = true)
  ∧ ("glance" ∈ tokens (lower message) ∨ "keystone" ∈ tokens (lower message) →
     _is_incident_like message = true
     ∧ (contains "openstack" (lower message) = false →
        contains "nova" (lower message) = false →
        contains "neutron" (lower message) = false →
        contains "cinder" (lower message) = false →
        _fallback_reply message knowledge
        = GENERIC_REPLY +:+ related_text message knowledge)).
Proof.
  intros H1 H2. unfold _fallback_reply. rewrite H1, H2. split.
  - destruct (contains "openstack" (lower message)),
      (contains "nova" (lower message)),
      (contains "neutron" (lower message)),
      (contains "cinder" (lower message)); simpl;
      try (split; [intros _|intros _; reflexivity]; tauto).
    split; [intros Heq; discriminate Heq|].
    intros [?|[?|[?|?]]]; discriminate.
  - intros Htok. split.
    + unfold _is_incident_like. apply bool_decide_eq_true_2.
      intros Hempty.
      destruct Htok as [Hg|Hk];
        [apply (not_elem_of_empty (C:=gset string) "glance")
        |apply (not_elem_of_empty (C:=gset string) "keystone")];
        rewrite <- Hempty; apply elem_of_intersection; (split; [done|]);
        unfold incident_keywords; set_solver.
    + by intros -> -> -> ->.
Qed.

Lemma fallback_openstack_branch_witness :
  (_fallback_reply "Glance image upload hangs" []
   = OPENSTACK_REPLY +:+ related_text "Glance image upload hangs" []
   ↔ contains "openstack" (lower "Glance image upload hangs") = true
     ∨ contains "nova" (lower "Glance image upload hangs") = true
     ∨ contains "neutron" (lower "Glance image upload hangs") = true
     ∨ contains "cinder" (lower "Glance image upload hangs") = true)
  ∧ ("glance" ∈ tokens (lower "Glance image upload hangs")
     ∨ "keystone" ∈ tokens (lower "Glance image upload hangs") →
     _is_incident_like "Glance image upload hangs" = true
     ∧ (contains "openstack" (lower "Glance image upload hangs") = false →
        contains "nova" (lower "Glance image upload hangs") = false →
        contains "neutron" (lower "Glance image upload hangs") = false →
        contains "cinder" (lower "Glance image upload hangs") = false →
        _fallback_reply "Glance image upload hangs" []
        = GENERIC_REPLY +:+ related_text "Glance image upload hangs" [])).
Proof.
  apply (fallback_openstack_branch "Glance image upload hangs" []); reflexivity.
Defined.

Example fallback_glance :
  _is_incident_like "Glance image upload hangs" = true
  ∧ _fallback_reply "Glance image upload hangs" [] = GENERIC_REPLY.
Proof. split; reflexivity. Qed.

Example fallback_cinder :
  _fallback_reply "Cinder volume stuck" [] = OPENSTACK_REPLY.
Proof. reflexivity. Qed.

End Ranking.

(** ** More on the text primitives *)

Section TextTheory.

Lemma app_cons_str c (s t : string) : String c s +:+ t = String c (s +:+ t).
Proof. reflexivity. Qed.

Lemma app_empty_l (s : string) : "" +:+ s = s.
Proof. reflexivity. Qed.

Lemma app_empty_r (s : string) : s +:+ "" = s.
Proof. induction s as [|c s IH]; [done|]. by rewrite app_cons_str, IH. Qed.

Lemma app_assoc_str (a b c : string) : (a +:+ b) +:+ c = a +:+ b +:+ c.
Proof. induction a as [|x a IH]; [done|]. by rewrite !app_cons_str, IH. Qed.

Lemma prefix_app sub s :
  String.prefix sub s = true ↔ ∃ post, s = sub +:+ post.
Proof.
  revert s. induction sub as [|a sub IH]; intros s.
  - split; [intros _; by exists s|by destruct s].
  - destruct s as [|b s]; simpl.
    + split; [done|]. intros [post Hp]. by rewrite app_cons_str in Hp.
    + destruct (ascii_dec a b) as [->|Hne].
      * rewrite IH. split; intros [post Hp]; exists post.
        -- by rewrite app_cons_str, Hp.
        -- rewrite app_cons_str in Hp. by injection Hp.
      * split; [done|]. intros [post Hp]. rewrite app_cons_str in Hp.
        by injection Hp.
Qed.

Lemma contains_app sub s :
  contains sub s = true ↔ ∃ pre post, s = pre +:+ sub +:+ post.
Proof.
  split.
  - induction s as [|a s IH].
    + rewrite contains_nil. intros [post ->]%prefix_app. by exists "", post.
    + rewrite contains_cons. intros [[post ->]%prefix_app|Hs]%orb_true_iff.
      * by exists "", post.
      * destruct (IH Hs) as (pre & post & ->). by exists (String a pre), post.
  - intros (pre & post & ->). induction pre as [|a pre IH].
    + rewrite app_empty_l.
      assert (String.prefix sub (sub +:+ post) = true) as Hp
        by (apply prefix_app; by exists post).
      destruct (sub +:+ post); [by rewrite contains_nil|].
      rewrite contains_cons, Hp. done.
    + rewrite app_cons_str, contains_cons, IH. apply orb_true_r.
Qed.

(** [contains sub s], the test [sub in s], holds exactly when [s] is
    some text, then [sub], then some text. *)
Theorem contains_iff_substring sub s :
  contains sub s = true ↔ ∃ pre post, s = pre +:+ sub +:+ post.
Proof. apply contains_app. Qed.

Lemma lstrip_split s :
  ∃ pre, s = pre +:+ lstrip s ∧ all_space pre = true
         ∧ starts_with_space (lstrip s) = false.
Proof.
  induction s as [|c s (pre & Hs & Hpre & Hst)]; [by exists ""|]. simpl.
  destruct (is_space c) eqn:Hc.
  - exists (String c pre). rewrite app_cons_str. simpl. by rewrite Hc, <- Hs.
  - exists "". by simpl.
Qed.

Lemma rstrip_split s :
  ∃ post, s = rstrip s +:+ post ∧ all_space post = true
          ∧ ends_with_space (rstrip s) = false.
Proof.
  induction s as [|c s (post & Hs & Hpost & Hend)]; [by exists ""|]. simpl.
  destruct (rstrip s) as [|d r] eqn:Hr.
  - rewrite app_empty_l in Hs. subst post. destruct (is_space c) eqn:Hc.
    + exists (String c s). rewrite app_empty_l. simpl. by rewrite Hc, Hpost.
    + exists s. rewrite app_cons_str, app_empty_l. simpl. by rewrite Hc.
  - exists post. split_and!; [|done..]. by rewrite app_cons_str, <- Hs.
Qed.

Lemma ends_with_space_lstrip s :
  ends_with_space s = false → ends_with_space (lstrip s) = false.
Proof.
  induction s as [|c s IH]; [done|]. intros Hend. simpl.
  destruct (is_space c) eqn:Hc; [|done].
  apply IH. destruct s; [done|exact Hend].
Qed.

Lemma all_space_app a b :
  all_space (a +:+ b) = all_space a && all_space b.
Proof.
  induction a as [|c a IH]; [done|]. rewrite app_cons_str. simpl.
  by rewrite IH, andb_assoc.
Qed.

Lemma all_space_rstrip s : all_space s = true → rstrip s = "".
Proof.
  induction s as [|c s IH]; [done|]. simpl.
  intros [Hc Hs]%andb_true_iff. by rewrite (IH Hs), Hc.
Qed.

(** [strip] cuts whitespace off both ends and nothing else: the text is
    leading whitespace, then its [strip], then trailing whitespace, and
    the [strip] neither starts nor ends with whitespace.  The [strip]
    is empty exactly for a text of whitespace only. *)
Theorem strip_cuts_both_ends s :
  (∃ pre post,
      s = pre +:+ strip s +:+ post
      ∧ all_space pre = true ∧ all_space post = true
      ∧ starts_with_space (strip s) = false
      ∧ ends_with_space (strip s) = false)
  ∧ (strip s = "" ↔ all_space s = true).
Proof.
  destruct (rstrip_split s) as (post & Hs & Hpost & Hend).
  destruct (lstrip_split (rstrip s)) as (pre & Hr & Hpre & Hst).
  assert (s = pre +:+ strip s +:+ post) as Heq.
  { unfold strip. by rewrite <- app_assoc_str, <- Hr. }
  split.
  - exists pre, post. split_and!; try done.
    by apply ends_with_space_lstrip.
  - split.
    + intros Hnil. rewrite Heq, Hnil, !all_space_app, Hpre, Hpost. done.
    + intros Hall. unfold strip. by rewrite all_space_rstrip.
Qed.

Lemma lower_char_idemp c : lower_char (lower_char c) = lower_char c.
Proof. destruct c as [[] [] [] [] [] [] [] []]; reflexivity. Qed.

Lemma is_space_lower_char c : is_space (lower_char c) = is_space c.
Proof. destruct c as [[] [] [] [] [] [] [] []]; reflexivity. Qed.

Lemma lower_idemp s : lower (lower s) = lower s.
Proof.
  induction s as [|c s IH]; [done|]. simpl. by rewrite lower_char_idemp, IH.
Qed.

Lemma lower_lstrip s : lower (lstrip s) = lstrip (lower s).
Proof.
  induction s as [|c s IH]; [done|]. simpl.
  rewrite is_space_lower_char. by destruct (is_space c).
Qed.

Lemma lower_rstrip s : lower (rstrip s) = rstrip (lower s).
Proof.
  induction s as [|c s IH]; [done|]. simpl.
  rewrite <- IH, is_space_lower_char.
  destruct (rstrip s); simpl; [by destruct (is_space c)|done].
Qed.

Lemma lower_strip s : lower (strip s) = strip (lower s).
Proof. unfold strip. by rewrite lower_lstrip, lower_rstrip. Qed.

Lemma length_lower s : String.length (lower s) = String.length s.
Proof. induction s as [|c s IH]; [done|]. simpl. by rewrite IH. Qed.

(** Lowercasing and trimming commute, lowercasing twice is lowercasing
    once, and lowercasing keeps the length: the normal form
    [s.strip().lower()] does not depend on the order of the two
    calls. *)
Theorem lower_and_strip_commute s :
  lower (strip s) = strip (lower s)
  ∧ lower (lower s) = lower s
  ∧ strip (strip s) = strip s
  ∧ String.length (lower s) = String.length s.
Proof.
  split_and!; [apply lower_strip|apply lower_idemp|apply strip_idemp
              |apply length_lower].
Qed.

End TextTheory.

(** ** Tokens *)

Section Tokens.

Lemma all_alnum_snoc cur c :
  all_alnum (cur +:+ String c "") = all_alnum cur && is_alnum c.
Proof.
  induction cur as [|a cur IH].
  - rewrite app_empty_l. simpl. by rewrite andb_true_r.
  - rewrite app_cons_str. simpl. by rewrite IH, andb_assoc.
Qed.

Lemma join_empty_cons p rest : join "" (p :: rest) = p +:+ join "" rest.
Proof. destruct rest; [by rewrite app_empty_r|done]. Qed.

Lemma findall_from_tokens s : ∀ cur t,
  all_alnum cur = true →
  t ∈ findall_from cur s →
  t ≠ "" ∧ all_alnum t = true ∧ ∃ pre post, cur +:+ s = pre +:+ t +:+ post.
Proof.
  induction s as [|c s IH]; intros cur t Hcur; simpl.
  - case_decide as Hnil; [by intros ?%elem_of_nil|].
    intros ->%list_elem_of_singleton. split_and!; [done..|].
    exists "", "". by rewrite app_empty_l.
  - destruct (is_alnum c) eqn:Hc.
    + intros Ht. destruct (IH (cur +:+ String c "") t) as (? & ? & pre & post & Heq);
        [by rewrite all_alnum_snoc, Hcur, Hc|done|].
      split_and!; [done..|]. exists pre, post. rewrite <- Heq.
      by rewrite app_assoc_str, app_cons_str, app_empty_l.
    + case_decide as Hnil.
      * subst cur. intros Ht.
        destruct (IH "" t) as (? & ? & pre & post & Heq); [done..|].
        split_and!; [done..|]. exists (String c pre), post.
        rewrite app_empty_l in *. by rewrite app_cons_str, <- Heq.
      * intros [->|Ht]%elem_of_cons.
        -- split_and!; [done..|]. exists "", (String c s).
           by rewrite app_empty_l.
        -- destruct (IH "" t) as (? & ? & pre & post & Heq); [done..|].
           split_and!; [done..|]. exists (cur +:+ String c pre), post.
           rewrite app_empty_l in Heq.
           by rewrite app_assoc_str, app_cons_str, <- Heq.
Qed.

Lemma findall_from_join s : ∀ cur,
  join "" (findall_from cur s) = cur +:+ only_alnum s.
Proof.
  induction s as [|c s IH]; intros cur; simpl.
  - case_decide as Hnil; [by subst|]. simpl. by rewrite app_empty_r.
  - destruct (is_alnum c).
    + rewrite IH. by rewrite app_assoc_str, app_cons_str, app_empty_l.
    + case_decide as Hnil; [subst; by rewrite IH|].
      by rewrite join_empty_cons, IH, app_empty_l.
Qed.

(** X1: every token that [re.findall(r"[a-z0-9]+", s)] returns is
    non-empty, consists of characters of the class and occurs in [s];
    read one after the other, the tokens are the class characters of
    [s] in order, so no such character is lost or added. *)
Theorem findall_gives_the_alnum_runs s :
  (∀ t, t ∈ findall s →
        t ≠ "" ∧ all_alnum t = true ∧ contains t s = true)
  ∧ join "" (findall s) = only_alnum s.
Proof.
  split.
  - intros t Ht.
    destruct (findall_from_tokens s "" t) as (? & ? & pre & post & Heq);
      [done..|].
    split_and!; [done..|]. apply contains_app. exists pre, post.
    by rewrite app_empty_l in Heq.
  - unfold findall. by rewrite findall_from_join, app_empty_l.
Qed.

Lemma alnum_not_space c : is_alnum c = true → is_space c = false.
Proof. destruct c as [[] [] [] [] [] [] [] []]; vm_compute; congruence. Qed.

Lemma incident_like_keyword message :
  _is_incident_like message = true →
  ∃ keyword, keyword ∈ incident_keywords
             ∧ keyword ∈ findall (lower message).
Proof.
  unfold _is_incident_like. intros Hne%bool_decide_eq_true.
  apply set_choose_L in Hne as [keyword [Hin Hkw]%elem_of_intersection].
  exists keyword. split; [done|]. by apply elem_of_list_to_set in Hin.
Qed.

(** X2: a message is incident-like only if its lowercased text contains
    one of the keywords as a substring; such a message is never blank,
    so the tracker's guard for an empty question cannot fire when
    [chat] calls it. *)
Theorem incident_like_names_a_keyword message :
  _is_incident_like message = true →
  (∃ keyword, keyword ∈ incident_keywords
              ∧ contains keyword (lower message) = true)
  ∧ nonempty (strip message) = true.
Proof.
  intros (keyword & Hkw & Htok)%incident_like_keyword.
  destruct (findall_from_tokens (lower message) "" keyword)
    as (Hne & Hal & pre & post & Heq); [done..|].
  assert (contains keyword (lower message) = true) as Hc.
  { apply contains_app. exists pre, post. by rewrite app_empty_l in Heq. }
  split; [exists keyword; split; assumption|].
  destruct keyword as [|c keyword]; [destruct Hne; reflexivity|]. simpl in Hal.
  apply andb_true_iff in Hal as [Hc1 _].
  assert (mem_char c (lower (strip message)) = true) as Hm.
  { apply mem_char_lower_strip; [by apply alnum_not_space|].
    eapply contains_mem_char; [exact Hc|]. simpl. by rewrite Ascii.eqb_refl. }
  rewrite <- nonempty_lower. by destruct (lower (strip message)).
Qed.

Lemma incident_like_names_a_keyword_witness :
  (∃ keyword, keyword ∈ incident_keywords
              ∧ contains keyword (lower "Nova-API: Timeout!") = true)
  ∧ nonempty (strip "Nova-API: Timeout!") = true.
Proof. apply (incident_like_names_a_keyword "Nova-API: Timeout!"). reflexivity. Defined.

(** X3: the stages that read the message only through its lowercased
    text give the same result for the message and for its lowercased
    form; the smalltalk and lookup stages also ignore whitespace around
    the message. *)
Theorem stages_ignore_case_and_padding message knowledge :
  _smalltalk_reply (lower message) = _smalltalk_reply message
  ∧ _find_reply (lower message) knowledge = _find_reply message knowledge
  ∧ _openstack_script_reply (lower message) = _openstack_script_reply message
  ∧ _is_incident_like (lower message) = _is_incident_like message
  ∧ _fallback_reply (lower message) knowledge = _fallback_reply message knowledge
  ∧ _smalltalk_reply (strip message) = _smalltalk_reply message
  ∧ _find_reply (strip message) knowledge = _find_reply message knowledge.
Proof.
  unfold _smalltalk_reply, _find_reply, _openstack_script_reply,
    _is_incident_like, _fallback_reply, related_text, _related_topics.
  rewrite <- !lower_strip, !lower_idemp, !strip_idemp. by split_and!.
Qed.

End Tokens.

(** ** What the lookup returns and what it cannot miss *)

Section LookupTheory.

Lemma contains_refl s : contains s s = true.
Proof. apply contains_app. exists "", "". by rewrite app_empty_l, app_empty_r. Qed.

Lemma lookup_some_inv text knowledge a :
  Spec.lookup text knowledge = Some a →
  ∃ item, item ∈ knowledge ∧ Spec.record_matches text item = true
          ∧ a = strip (answer_of item).
Proof.
  unfold Spec.lookup. destruct (List.find _ knowledge) as [item|] eqn:Hf; [|done].
  intros [= <-]. apply find_some in Hf as [Hin Hm].
  exists item. by rewrite list_elem_of_In.
Qed.

Lemma lookup_some_intro text knowledge item :
  item ∈ knowledge → Spec.record_matches text item = true →
  ∃ a, Spec.lookup text knowledge = Some a ∧ a ≠ "".
Proof.
  intros Hin Hm. unfold Spec.lookup.
  destruct (List.find _ knowledge) as [found|] eqn:Hf.
  - apply find_some in Hf as [_ Hfm]. eexists. split; [done|].
    unfold Spec.record_matches, Spec.eligible in Hfm.
    apply andb_true_iff in Hfm as [[_ Ha]%andb_true_iff _].
    by destruct (strip (answer_of found)).
  - apply list_elem_of_In in Hin.
    pose proof (find_none _ _ Hf item Hin). congruence.
Qed.

(** X4: an answer that [_find_reply] returns for a message that is not
    blank is the trimmed answer of a stored record; it is never empty,
    and the record's question is not empty either, so an unresolved
    record is never returned. *)
Theorem find_reply_returns_a_stored_answer message knowledge a :
  nonempty (strip message) = true →
  _find_reply message knowledge = Some a →
  a ≠ ""
  ∧ ∃ item, item ∈ knowledge
            ∧ a = strip (answer_of item)
            ∧ strip (question_of item) ≠ ""
            ∧ Spec.record_matches (lower (strip message)) item = true.
Proof.
  intros Hne. unfold _find_reply. rewrite nonempty_lower, Hne. simpl.
  rewrite find_reply_loop_spec.
  intros (item & Hin & Hm & ->)%lookup_some_inv.
  pose proof Hm as Hm'. unfold Spec.record_matches, Spec.eligible in Hm'.
  apply andb_true_iff in Hm' as [[Hq Ha]%andb_true_iff _].
  split; [by destruct (strip (answer_of item))|].
  exists item. split_and!; try done. by destruct (strip (question_of item)).
Qed.

Lemma find_reply_returns_a_stored_answer_witness :
  "Inspect previous logs." ≠ ""
  ∧ ∃ item, item ∈ [unresolved_record "pod restart"; Samples.pod_record]
            ∧ "Inspect previous logs." = strip (answer_of item)
            ∧ strip (question_of item) ≠ ""
            ∧ Spec.record_matches (lower (strip "my Pod is in a restart loop")) item
              = true.
Proof.
  apply (find_reply_returns_a_stored_answer "my Pod is in a restart loop"
           [unresolved_record "pod restart"; Samples.pod_record]);
    reflexivity.
Defined.

(** X5: a stored record with a non-empty question and answer is
    reachable by its own question: a message that equals the question
    up to case and surrounding whitespace, or whose tokens include all
    the tokens of the question, always gets a non-empty answer from the
    lookup (that of the first matching record). *)
Theorem stored_question_gets_an_answer message knowledge item :
  item ∈ knowledge →
  Spec.eligible item = true →
  lower (strip message) = normalized_question item
  ∨ (tokens (normalized_question item) ≠ ∅
     ∧ tokens (normalized_question item) ⊆ tokens (lower (strip message))) →
  ∃ a, _find_reply message knowledge = Some a ∧ a ≠ "".
Proof.
  intros Hin Hel Hcase. unfold _find_reply. rewrite nonempty_lower.
  destruct (nonempty (strip message)); [|by eexists]. simpl.
  rewrite find_reply_loop_spec. apply (lookup_some_intro _ _ item Hin).
  unfold Spec.record_matches. rewrite Hel. simpl.
  fold (normalized_question item). apply orb_true_iff.
  destruct Hcase as [->|[Hne Hsub]].
  - left. unfold Spec.contained. by rewrite contains_refl.
  - right. unfold Spec.overlaps. apply bool_decide_eq_true_2.
    assert (tokens (lower (strip message)) ∩ tokens (normalized_question item)
            = tokens (normalized_question item)) as ->.
    { rewrite (comm_L (∩)). by apply subseteq_intersection_1_L. }
    rewrite tokens_empty_size in Hne. lia.
Qed.

Lemma stored_question_gets_an_answer_witness :
  ∃ a, _find_reply "  Loop: restart of POD?" [Samples.pod_record] = Some a ∧ a ≠ "".
Proof.
  apply (stored_question_gets_an_answer "  Loop: restart of POD?"
           [Samples.pod_record] Samples.pod_record).
  - apply list_elem_of_singleton. reflexivity.
  - reflexivity.
  - right. split.
    + apply (bool_decide_unpack _). vm_compute. exact I.
    + apply (bool_decide_unpack _). vm_compute. exact I.
Defined.

(** X6: the overlap score of a question that has tokens lies between 0
    and 1, and it is 1 exactly when every token of the question is a
    token of the message. *)
Theorem overlap_ratio_bounds (m q : gset string) :
  q ≠ ∅ →
  (0 <= overlap_ratio m q)%Q
  ∧ (overlap_ratio m q <= 1)%Q
  ∧ ((overlap_ratio m q == 1)%Q ↔ q ⊆ m).
Proof.
  intros Hq.
  assert (size q ≠ 0) as Hsz.
  { intros H0. apply Hq. by apply leibniz_equiv, size_empty_inv. }
  assert (size (m ∩ q) ≤ size q)%nat as Hle
    by apply subseteq_size, intersection_subseteq_r.
  assert (Z.pos (Pos.of_nat (size q)) = Z.of_nat (size q)) as Hpos.
  { destruct (size q) as [|n]; [done|].
    by rewrite <- Pos.of_nat_succ, Zpos_P_of_succ_nat, Nat2Z.inj_succ. }
  unfold overlap_ratio, Qle, Qeq. cbn [Qnum Qden]. rewrite Hpos.
  split_and!; [lia..|].
  split.
  - intros Heq. assert (size q ≤ size (m ∩ q))%nat as Hge by lia.
    assert (m ∩ q = q) as Hmq.
    { apply set_subseteq_size_eq; [apply intersection_subseteq_r|done]. }
    rewrite <- Hmq. apply intersection_subseteq_l.
  - intros Hsub. assert (m ∩ q = q) as ->; [|lia].
    rewrite (comm_L (∩)). by apply subseteq_intersection_1_L.
Qed.

Lemma overlap_ratio_bounds_witness :
  (0 <= overlap_ratio (tokens "pod is stuck") (tokens "stuck pod"))%Q
  ∧ (overlap_ratio (tokens "pod is stuck") (tokens "stuck pod") <= 1)%Q
  ∧ ((overlap_ratio (tokens "pod is stuck") (tokens "stuck pod") == 1)%Q
     ↔ tokens "stuck pod" ⊆ tokens "pod is stuck").
Proof.
  apply (overlap_ratio_bounds (tokens "pod is stuck") (tokens "stuck pod")).
  apply (bool_decide_unpack _). vm_compute. exact I.
Defined.

End LookupTheory.

(** ** The pipeline as a whole *)

Section Pipeline.

Lemma if_truthy_some o s : if_truthy o = Some s → o = Some s ∧ nonempty s = true.
Proof.
  destruct o as [t|]; [|done]. simpl.
  destruct (nonempty t) eqn:Ht; [|done]. by intros [= <-].
Qed.

Lemma smalltalk_truthy message :
  if_truthy (_smalltalk_reply message) = _smalltalk_reply message.
Proof. unfold _smalltalk_reply. by repeat case_match. Qed.

Lemma script_truthy message :
  if_truthy (_openstack_script_reply message) = _openstack_script_reply message.
Proof. unfold _openstack_script_reply. by case_match. Qed.

(** X7: when the smalltalk stage has a reply (a blank message, a
    greeting, thanks or a help phrase, in any case and with any
    whitespace around it), [chat] returns that reply with source
    [intent], whatever the store and the delegate are, and does not
    write the knowledge file. *)
Theorem smalltalk_short_circuits env post file message knowledge r :
  _load_knowledge file = Ok knowledge →
  _smalltalk_reply message = Some r →
  chat env post file message = (Ok {| reply := r; source := "intent" |}, file).
Proof.
  intros Hload Hs. unfold chat.
  by rewrite Hload, smalltalk_truthy, Hs.
Qed.

Lemma smalltalk_short_circuits_witness :
  chat Samples.openai_env Samples.llm_up Samples.volumes_file "  Good Morning "
  = (Ok {| reply := GREETING_REPLY; source := "intent" |}, Samples.volumes_file).
Proof.
  apply (smalltalk_short_circuits Samples.openai_env Samples.llm_up
           Samples.volumes_file "  Good Morning " [Samples.volumes_record]);
    reflexivity.
Defined.

(** X8: a message of whitespace only gets the prompt for input, with
    source [intent]; the store is not consulted and the file is not
    written. *)
Theorem blank_message_gets_the_prompt env post file message knowledge :
  _load_knowledge file = Ok knowledge →
  all_space message = true →
  chat env post file message
  = (Ok {| reply := PROMPT_FOR_INPUT; source := "intent" |}, file).
Proof.
  intros Hload Hblank. unfold chat, _smalltalk_reply, strip.
  by rewrite Hload, (all_space_rstrip _ Hblank).
Qed.

Lemma blank_message_gets_the_prompt_witness :
  chat Samples.no_env Samples.llm_down Samples.pod_error_file ("  " +:+ nl)
  = (Ok {| reply := PROMPT_FOR_INPUT; source := "intent" |},
     Samples.pod_error_file).
Proof.
  apply (blank_message_gets_the_prompt Samples.no_env Samples.llm_down
           Samples.pod_error_file ("  " +:+ nl) [unresolved_record "pod error"]);
    reflexivity.
Defined.

Lemma tracked_store message knowledge file :
  ∃ r, fst (_track_unknown_issue message knowledge file) = knowledge
       ∨ fst (_track_unknown_issue message knowledge file)
         = knowledge ++ [unresolved_record r].
Proof.
  rewrite track_unknown_issue_spec. exists (strip message).
  case_match; [by right|by left].
Qed.

Lemma fallback_reply_after_tracking message knowledge file :
  _fallback_reply message (fst (_track_unknown_issue message knowledge file))
  = _fallback_reply message knowledge.
Proof.
  destruct (tracked_store message knowledge file) as [r [->| ->]]; [done|].
  by apply fallback_reply_unanswered.
Qed.

(** X9: the source tag tells which stage produced the reply: with
    [intent] the reply is the smalltalk reply, with [knowledge.json] it
    is what the lookup returned on the loaded store, with
    [template:openstack_script] it is the script, and with either
    fallback tag it is the fallback text for the loaded store, the tag
    telling whether a credential is configured.  No other tag than
    these and [llm:<model>] is returned. *)
Theorem source_names_the_stage env post file message knowledge r file' :
  _load_knowledge file = Ok knowledge →
  chat env post file message = (Ok r, file') →
  (source r = "intent" → _smalltalk_reply message = Some (reply r))
  ∧ (source r = "knowledge.json" → _find_reply message knowledge = Some (reply r))
  ∧ (source r = "template:openstack_script" → reply r = OPENSTACK_SCRIPT)
  ∧ (source r = "fallback:no_llm_api_key" →
     reply r = _fallback_reply message knowledge
     ∧ nonempty (llm_api_key_of env) = false)
  ∧ (source r = "fallback:llm_unavailable" →
     reply r = _fallback_reply message knowledge
     ∧ nonempty (llm_api_key_of env) = true)
  ∧ (source r = "intent" ∨ source r = "knowledge.json"
     ∨ source r = "template:openstack_script"
     ∨ source r = "fallback:no_llm_api_key"
     ∨ source r = "fallback:llm_unavailable"
     ∨ source r = "llm:" +:+ strip (getenv env "OPENAI_MODEL" "gpt-4.1-mini")).
Proof.
  intros Hload. unfold chat. rewrite Hload.
  destruct (if_truthy (_smalltalk_reply message)) as [s|] eqn:Hs.
  { apply if_truthy_some in Hs as [Hs _]. intros [= <- <-]. simpl.
    split_and!; try done. by left. }
  destruct (if_truthy (_find_reply message knowledge)) as [a|] eqn:Hf.
  { apply if_truthy_some in Hf as [Hf _]. intros [= <- <-]. simpl.
    split_and!; try done. right. by left. }
  destruct (if_truthy (_openstack_script_reply message)) as [t|] eqn:Ht.
  { apply if_truthy_some in Ht as [Ht _]. intros [= <- <-]. simpl.
    unfold _openstack_script_reply in Ht.
    split_and!; try done; [|do 2 right; by left].
    intros _. by case_match; simplify_eq. }
  set (tracked := if _is_incident_like message
                  then _track_unknown_issue message knowledge file
                  else (knowledge, file)).
  assert (_fallback_reply message (fst tracked)
          = _fallback_reply message knowledge) as Hfb.
  { unfold tracked. destruct (_is_incident_like message); [|done].
    apply fallback_reply_after_tracking. }
  destruct tracked as [knowledge' file'']. simpl in Hfb.
  unfold answer_stage. fold (llm_api_key_of env).
  destruct (_llm_reply env post message knowledge') as [o|e]; [|done].
  destruct (if_truthy o) as [l|].
  { intros [= <- <-]. simpl.
    split_and!; try (rewrite app_cons_str; done). by do 5 right. }
  destruct (nonempty (llm_api_key_of env)); intros [= <- <-]; simpl;
    rewrite Hfb;
    split_and!; try done; [do 4 right; by left|do 3 right; by left].
Qed.

Lemma source_names_the_stage_witness :
  (source {| reply := "Restart the pod."; source := "llm:gpt-4.1-mini" |} = "intent" →
   _smalltalk_reply "pod error" = Some "Restart the pod.")
  ∧ (source {| reply := "Restart the pod."; source := "llm:gpt-4.1-mini" |}
     = "knowledge.json" →
     _find_reply "pod error" [] = Some "Restart the pod.")
  ∧ (source {| reply := "Restart the pod."; source := "llm:gpt-4.1-mini" |}
     = "template:openstack_script" → "Restart the pod." = OPENSTACK_SCRIPT)
  ∧ (source {| reply := "Restart the pod."; source := "llm:gpt-4.1-mini" |}
     = "fallback:no_llm_api_key" →
     "Restart the pod." = _fallback_reply "pod error" []
     ∧ nonempty (llm_api_key_of Samples.openai_env) = false)
  ∧ (source {| reply := "Restart the pod."; source := "llm:gpt-4.1-mini" |}
     = "fallback:llm_unavailable" →
     "Restart the pod." = _fallback_reply "pod error" []
     ∧ nonempty (llm_api_key_of Samples.openai_env) = true)
  ∧ (source {| reply := "Restart the pod."; source := "llm:gpt-4.1-mini" |} = "intent"
     ∨ source {| reply := "Restart the pod."; source := "llm:gpt-4.1-mini" |}
       = "knowledge.json"
     ∨ source {| reply := "Restart the pod."; source := "llm:gpt-4.1-mini" |}
       = "template:openstack_script"
     ∨ source {| reply := "Restart the pod."; source := "llm:gpt-4.1-mini" |}
       = "fallback:no_llm_api_key"
     ∨ source {| reply := "Restart the pod."; source := "llm:gpt-4.1-mini" |}
       = "fallback:llm_unavailable"
     ∨ source {| reply := "Restart the pod."; source := "llm:gpt-4.1-mini" |}
       = "llm:" +:+ strip (getenv Samples.openai_env "OPENAI_MODEL" "gpt-4.1-mini")).
Proof.
  apply (source_names_the_stage Samples.openai_env Samples.llm_up NoFile
           "pod error" []
           {| reply := "Restart the pod."; source := "llm:gpt-4.1-mini" |}
           (Json (JArray [JObject (unresolved_record "pod error")])));
    reflexivity.
Defined.

End Pipeline.

(** ** The delegate, the store and the file *)

Section Effects.

Lemma llm_reply_no_key env post message knowledge :
  nonempty (llm_api_key_of env) = false →
  _llm_reply env post message knowledge = Ok None.
Proof. intros Hk. unfold _llm_reply. fold (llm_api_key_of env). by rewrite Hk. Qed.

(** X10: with no credential configured the delegate is never called:
    [chat] gives the same response and leaves the same file whatever
    the delegate would return, and its source is one of [intent],
    [knowledge.json], [template:openstack_script] and
    [fallback:no_llm_api_key]. *)
Theorem no_credential_no_delegate env post1 post2 file message :
  nonempty (llm_api_key_of env) = false →
  chat env post1 file message = chat env post2 file message
  ∧ ∀ r, fst (chat env post1 file message) = Ok r →
         source r ∈ ["intent"; "knowledge.json"; "template:openstack_script";
                     "fallback:no_llm_api_key"].
Proof.
  intros Hk. unfold chat.
  destruct (_load_knowledge file) as [knowledge|e]; [|done].
  repeat (case_match; [split; [done|]; intros r [= <-]; set_solver|]).
  unfold answer_stage. fold (llm_api_key_of env).
  destruct (if _is_incident_like message
            then _track_unknown_issue message knowledge file
            else (knowledge, file)) as [knowledge' file'].
  rewrite !llm_reply_no_key, Hk by done. simpl.
  split; [done|]. intros r [= <-]. set_solver.
Qed.

Lemma no_credential_no_delegate_witness :
  chat Samples.no_env Samples.llm_up NoFile "pod error"
  = chat Samples.no_env Samples.llm_down NoFile "pod error"
  ∧ ∀ r, fst (chat Samples.no_env Samples.llm_up NoFile "pod error") = Ok r →
         source r ∈ ["intent"; "knowledge.json"; "template:openstack_script";
                     "fallback:no_llm_api_key"].
Proof.
  apply (no_credential_no_delegate Samples.no_env Samples.llm_up
           Samples.llm_down NoFile "pod error").
  reflexivity.
Defined.

(** X11: what a [chat] request does to the store: it appends one
    unresolved record, whose question is the trimmed message, exactly
    when no stage before the tracker answers, the message is
    incident-like and its normalized text is not yet a stored question;
    otherwise it does not write the file.  Records already in the store
    are never dropped or changed; when it writes, the file becomes the
    array of the loaded records and the new one. *)
Theorem chat_store_effect env post file message knowledge :
  _load_knowledge file = Ok knowledge →
  _load_knowledge (snd (chat env post file message))
  = Ok (if tracks message knowledge
        then knowledge ++ [unresolved_record (strip message)]
        else knowledge)
  ∧ (tracks message knowledge = false → snd (chat env post file message) = file)
  ∧ (tracks message knowledge = true →
     snd (chat env post file message)
     = _save_knowledge (knowledge ++ [unresolved_record (strip message)])).
Proof.
  intros Hload. unfold chat, tracks. rewrite Hload.
  rewrite smalltalk_truthy, find_reply_truthy, script_truthy.
  destruct (_smalltalk_reply message); [done|].
  destruct (_find_reply message knowledge) eqn:Hf; [done|].
  destruct (_openstack_script_reply message); [done|].
  rewrite !bool_decide_eq_true_2 by done. cbn [andb].
  destruct (_is_incident_like message); [|done]. cbn [andb].
  rewrite track_unknown_issue_spec, (find_reply_none_nonempty _ _ Hf).
  cbn [andb]. case_bool_decide; cbn [negb snd]; [done|].
  by rewrite load_save.
Qed.

Lemma chat_store_effect_witness :
  _load_knowledge
    (snd (chat Samples.openai_env Samples.llm_up Samples.volumes_file
            " Keystone token expired "))
  = Ok (if tracks " Keystone token expired " [Samples.volumes_record]
        then [Samples.volumes_record]
             ++ [unresolved_record (strip " Keystone token expired ")]
        else [Samples.volumes_record])
  ∧ (tracks " Keystone token expired " [Samples.volumes_record] = false →
     snd (chat Samples.openai_env Samples.llm_up Samples.volumes_file
            " Keystone token expired ")
     = Samples.volumes_file)
  ∧ (tracks " Keystone token expired " [Samples.volumes_record] = true →
     snd (chat Samples.openai_env Samples.llm_up Samples.volumes_file
            " Keystone token expired ")
     = _save_knowledge
         ([Samples.volumes_record]
          ++ [unresolved_record (strip " Keystone token expired ")])).
Proof.
  apply (chat_store_effect Samples.openai_env Samples.llm_up
           Samples.volumes_file " Keystone token expired "
           [Samples.volumes_record]).
  reflexivity.
Defined.

(** X12: the delegate is grounded on the first 30 records only: records
    from the 31st on change neither the knowledge context nor the
    request, hence not the delegate's reply. *)
Theorem llm_context_is_the_first_30_records env post message
    (knowledge more : list dict) :
  (30 ≤ length knowledge)%nat →
  kb_context (knowledge ++ more) = kb_context knowledge
  ∧ llm_prompt message (knowledge ++ more) = llm_prompt message knowledge
  ∧ _llm_reply env post message (knowledge ++ more)
    = _llm_reply env post message knowledge.
Proof.
  intros Hlen.
  assert (kb_context (knowledge ++ more) = kb_context knowledge) as Hctx.
  { unfold kb_context. by rewrite take_app_le. }
  unfold _llm_reply, llm_prompt. by rewrite Hctx.
Qed.

Lemma llm_context_is_the_first_30_records_witness :
  kb_context (replicate 30 Samples.pod_record ++ [Samples.liveness_record])
  = kb_context (replicate 30 Samples.pod_record)
  ∧ llm_prompt "pod" (replicate 30 Samples.pod_record ++ [Samples.liveness_record])
    = llm_prompt "pod" (replicate 30 Samples.pod_record)
  ∧ _llm_reply Samples.openai_env Samples.llm_up "pod"
      (replicate 30 Samples.pod_record ++ [Samples.liveness_record])
    = _llm_reply Samples.openai_env Samples.llm_up "pod"
        (replicate 30 Samples.pod_record).
Proof.
  apply (llm_context_is_the_first_30_records Samples.openai_env Samples.llm_up
           "pod" (replicate 30 Samples.pod_record) [Samples.liveness_record]).
  vm_compute. lia.
Defined.

(** X13: a reply of the delegate is never empty and is trimmed; it
    exists only when a credential is configured and the request, sent
    with the credential as bearer token and a timeout of 20 seconds,
    came back with a completion that is not blank. *)
Theorem llm_reply_is_a_trimmed_completion env post message knowledge t :
  _llm_reply env post message knowledge = Ok (Some t) →
  nonempty t = true
  ∧ strip t = t
  ∧ nonempty (llm_api_key_of env) = true
  ∧ ∃ request text,
      post request = Completion text
      ∧ t = strip text
      ∧ req_timeout request = 20
      ∧ req_headers request !! "Authorization"
        = Some ("Bearer " +:+ llm_api_key_of env)
      ∧ req_headers request !! "Content-Type" = Some "application/json".
Proof.
  unfold _llm_reply. fold (llm_api_key_of env).
  destruct (nonempty (llm_api_key_of env)); [|done]. cbn [negb].
  match goal with |- match post ?req with _ => _ end = _ → _ =>
    set (request := req) end.
  destruct (post request) as [|text|e] eqn:Hpost; [done| |done].
  destruct (nonempty (strip text)) eqn:Hne; [|done].
  intros [= <-]. split_and!; [done|apply strip_idemp|done|].
  exists request, text. split_and!; [done|done|..].
  - unfold request. by repeat case_match.
  - unfold request.
    repeat case_match; cbn [req_headers];
      repeat (rewrite lookup_insert_ne by (intros [=]));
      apply lookup_insert_eq.
  - unfold request.
    repeat case_match; cbn [req_headers];
      repeat (rewrite lookup_insert_ne by (intros [=]));
      apply lookup_singleton_eq.
Qed.

Lemma llm_reply_is_a_trimmed_completion_witness :
  nonempty "Restart the pod." = true
  ∧ strip "Restart the pod." = "Restart the pod."
  ∧ nonempty (llm_api_key_of Samples.openai_env) = true
  ∧ ∃ request text,
      Samples.llm_up request = Completion text
      ∧ "Restart the pod." = strip text
      ∧ req_timeout request = 20
      ∧ req_headers request !! "Authorization"
        = Some ("Bearer " +:+ llm_api_key_of Samples.openai_env)
      ∧ req_headers request !! "Content-Type" = Some "application/json".
Proof.
  apply (llm_reply_is_a_trimmed_completion Samples.openai_env Samples.llm_up
           "pod error" [] "Restart the pod.").
  reflexivity.
Defined.



End Effects.

(** ** Related topics, repeated tracking and the client *)

Section Surroundings.

(** X14: every related topic is the trimmed question of a stored record
    that has an answer and shares a token with the message, so an
    unresolved record is never suggested; at most [limit] topics are
    returned. *)
Theorem related_topics_are_answered_questions message knowledge limit t :
  t ∈ _related_topics message knowledge limit →
  (length (_related_topics message knowledge limit) ≤ limit)%nat
  ∧ ∃ item, item ∈ knowledge
            ∧ t = strip (question_of item)
            ∧ strip (answer_of item) ≠ ""
            ∧ (0 < size (tokens (lower message)
                         ∩ tokens (lower (strip (question_of item)))))%nat.
Proof.
  unfold _related_topics. intros Ht. split.
  { rewrite length_fmap, length_take. lia. }
  apply list_elem_of_fmap in Ht as ([score q] & -> & Hin).
  apply elem_of_take in Hin as (i & Hi & _).
  apply list_elem_of_lookup_2 in Hi.
  rewrite sort_desc_perm, scored_topics_candidates in Hi.
  unfold RelatedSpec.candidates in Hi.
  apply list_elem_of_fmap in Hi as (item & [= -> ->] & Hitem).
  apply list_elem_of_In, filter_In in Hitem as [Hitem Hs].
  unfold RelatedSpec.suggestible in Hs.
  apply andb_true_iff in Hs as [[_ Ha]%andb_true_iff Hpos%bool_decide_eq_true].
  exists item. split_and!; [by apply list_elem_of_In|done| |done].
  by destruct (strip (answer_of item)).
Qed.

Lemma related_topics_are_answered_questions_witness :
  (length (_related_topics "liveness probe on pod returns 500"
             [Samples.pod_record; unresolved_record "liveness probe";
              Samples.liveness_record] 1) ≤ 1)%nat
  ∧ ∃ item, item ∈ [Samples.pod_record; unresolved_record "liveness probe";
                    Samples.liveness_record]
            ∧ "Liveness probe failing" = strip (question_of item)
            ∧ strip (answer_of item) ≠ ""
            ∧ (0 < size (tokens (lower "liveness probe on pod returns 500")
                         ∩ tokens (lower (strip (question_of item)))))%nat.
Proof.
  apply (related_topics_are_answered_questions
           "liveness probe on pod returns 500"
           [Samples.pod_record; unresolved_record "liveness probe";
            Samples.liveness_record] 1 "Liveness probe failing").
  apply list_elem_of_singleton. reflexivity.
Defined.

(** X15: the tracker records a question once whatever its case and the
    whitespace around it: after a call for a message, a call for any
    message with the same normalized text changes neither the store
    nor the file. *)
Theorem tracker_ignores_case_variants message message' knowledge file :
  lower (strip message') = lower (strip message) →
  _track_unknown_issue message'
    (fst (_track_unknown_issue message knowledge file))
    (snd (_track_unknown_issue message knowledge file))
  = _track_unknown_issue message knowledge file.
Proof.
  intros Heq.
  assert (nonempty (strip message') = nonempty (strip message)) as Hne.
  { by rewrite <- (nonempty_lower (strip message')), Heq, nonempty_lower. }
  rewrite (track_unknown_issue_spec message knowledge file).
  destruct (nonempty (strip message)
            && negb (bool_decide (lower (strip message)
                                  ∈ normalized_question <$> knowledge))) eqn:Hc;
    cbn [fst snd]; rewrite track_unknown_issue_spec, Heq, Hne.
  - rewrite bool_decide_eq_true_2; [by rewrite andb_false_r|].
    rewrite fmap_app, elem_of_app. right.
    rewrite list_fmap_singleton, normalized_unresolved.
    by apply list_elem_of_singleton.
  - by rewrite Hc.
Qed.

Lemma tracker_ignores_case_variants_witness :
  _track_unknown_issue "  NOVA timeout"
    (fst (_track_unknown_issue "Nova Timeout " [] NoFile))
    (snd (_track_unknown_issue "Nova Timeout " [] NoFile))
  = _track_unknown_issue "Nova Timeout " [] NoFile.
Proof.
  apply (tracker_ignores_case_variants "Nova Timeout " "  NOVA timeout" [] NoFile).
  reflexivity.
Defined.

Lemma send_user_message_adds backend input messages :
  fst (send_user_message backend input messages)
  = messages ++ (if nonempty (strip input)
                 then exchange backend (strip input) else []).
Proof.
  unfold send_user_message, call_chat_api, exchange.
  destruct (nonempty (strip input)); cbn [negb]; [|by rewrite app_nil_r].
  destruct (backend (strip input)) as [shown|[]]; cbn [fst];
    by rewrite <- ?app_assoc.
Qed.

Lemma send_all_exchanges backend inputs : ∀ messages,
  send_all backend inputs messages
  = messages ++ concat (exchange backend <$> sent_texts inputs).
Proof.
  unfold send_all, sent_texts.
  induction inputs as [|input inputs IH]; intros messages; simpl.
  - by rewrite app_nil_r.
  - rewrite IH, send_user_message_adds.
    destruct (nonempty (strip input)); simpl; by rewrite <- ?app_assoc, ?app_nil_r.
Qed.

(** X16: in the client, whatever the backend does, the session after a
    series of inputs is the earlier session followed, for each input
    that is not blank, in order, by the entries of its exchange: the
    user entry with the trimmed input and then the assistant entry (the
    reply and source of the response, with their defaults, or the
    failure text with source "error").  When the response is JSON that
    is no object, only the user entry is added and [AttributeError]
    escapes; no exception escapes otherwise.  Blank inputs add
    nothing. *)
Theorem client_session_is_the_exchanges backend inputs messages :
  send_all backend inputs messages
  = messages ++ concat (exchange backend <$> sent_texts inputs)
  ∧ ∀ input earlier,
      snd (send_user_message backend input earlier)
      = if nonempty (strip input) && negb (answers (backend (strip input)))
        then Some AttributeError else None.
Proof.
  split; [apply send_all_exchanges|].
  intros input earlier. unfold send_user_message, call_chat_api, answers.
  destruct (nonempty (strip input)); [|done]. cbn [negb andb].
  by destruct (backend (strip input)) as [shown|[]].
Qed.

Example client_lone_user_entry :
  send_user_message Samples.backend_array " pod error " []
  = ([user_entry "pod error"], Some AttributeError).
Proof. reflexivity. Qed.

Lemma exchange_answered backend text :
  answers (backend text) = true →
  ∃ a, exchange backend text = [user_entry text; a]
       ∧ a !! "role" = Some (PStr "assistant")
       ∧ is_Some (a !! "content") ∧ is_Some (a !! "source").
Proof.
  unfold exchange, answers.
  destruct (backend text) as [shown|[]]; try done; intros _;
    eexists; (split; [reflexivity|]); by split_and!.
Qed.

(** X17: when every input is blank or gets a request failure or a JSON
    object from the backend, the session that starts empty is a
    conversation about the trimmed non-blank inputs: for each of them
    in order, the user entry holding exactly that text and then one
    assistant entry with a content and a source; it has two entries
    per such input, and no send lets an exception escape. *)
Theorem client_session_is_a_conversation backend inputs :
  all_answered backend inputs = true →
  conversation (sent_texts inputs) (send_all backend inputs [])
  ∧ length (send_all backend inputs []) = 2 * length (sent_texts inputs)
  ∧ Forall (λ input, ∀ earlier,
              snd (send_user_message backend input earlier) = None) inputs.
Proof.
  intros Hall. rewrite send_all_exchanges, app_nil_l.
  unfold all_answered in Hall. rewrite forallb_forall in Hall.
  assert (Forall (λ text, answers (backend text) = true) (sent_texts inputs))
    as Hans.
  { unfold sent_texts. apply Forall_fmap, Forall_forall. intros input Hin.
    apply list_elem_of_In, filter_In in Hin as [Hin Hne].
    specialize (Hall input Hin). simpl. by rewrite Hne in Hall. }
  split_and!.
  - induction Hans as [|text texts Htext _ IH]; [done|].
    destruct (exchange_answered backend text Htext) as (a & He & ? & ? & ?).
    rewrite fmap_cons. cbn [concat]. rewrite He. cbn [app conversation].
    by split_and!.
  - induction Hans as [|text texts Htext _ IH]; [done|].
    destruct (exchange_answered backend text Htext) as (a & He & _).
    rewrite fmap_cons. cbn [concat]. rewrite He. cbn [app length].
    rewrite IH. lia.
  - apply Forall_forall. intros input Hin earlier.
    apply list_elem_of_In in Hin. specialize (Hall input Hin).
    unfold send_user_message, call_chat_api.
    destruct (nonempty (strip input)); [|done]. cbn [negb orb] in *.
    unfold answers in Hall.
    by destruct (backend (strip input)) as [shown|[]].
Qed.

Lemma client_session_is_a_conversation_witness :
  conversation (sent_texts [" hi "; "   "; "Pod error"])
    (send_all Samples.backend_mixed [" hi "; "   "; "Pod error"] [])
  ∧ length (send_all Samples.backend_mixed [" hi "; "   "; "Pod error"] [])
    = 2 * length (sent_texts [" hi "; "   "; "Pod error"])
  ∧ Forall (λ input, ∀ earlier,
              snd (send_user_message Samples.backend_mixed input earlier) = None)
      [" hi "; "   "; "Pod error"].
Proof.
  apply (client_session_is_a_conversation Samples.backend_mixed
           [" hi "; "   "; "Pod error"]).
  reflexivity.
Defined.

End Surroundings.
